(** * bun-web-core: request dispatch pipeline and dependency container

    A shallow embedding of the TypeScript sources of the framework core:

    - [Router]      : [Application.matchRoute] (application/application.ts)
    - [Container]   : [Container.resolve] and [Injectable]
                      (container/container.ts, decorators/injectable)
    - [Guards]      : [GuardResolver], [GuardExecutor]
    - [Pipes]       : [PipeResolver.executePipes], [ParamResolver]
    - [Filters]     : [FilterResolver], [ExceptionFilterExecutor],
                      [DefaultExceptionFilter]
    - [Interceptors]: [InterceptorExecutor.execute]
    - [Dispatch]    : the request handler built by
                      [Application.findMatchingRoute]
    - [Paths]       : [Application.combinePaths]
    - [BuiltinInterceptors] : [TransformInterceptor]
    - [BuiltinPipes]: [ValidationPipe], [ParseIntPipe]

    JavaScript strings are modelled by [string]; every separator the code
    looks at ("/" and ":") is ASCII, so working on UTF-8 bytes agrees with
    working on UTF-16 code units.  Asynchronous functions are modelled in a
    state-and-exception monad: one request is one cooperative task, and every
    [await] of the sources resumes exactly where it suspended. *)

From Stdlib Require Import ZArith Ascii String List Bool Lia DecimalString.
From stdpp Require Import base option list gmap strings.

Local Open Scope string_scope.
Local Open Scope list_scope.

(** ** JavaScript string helpers *)

Module JsString.

(** [s.split(sep)] for a one-character separator: always at least one
    piece, empty pieces kept. *)
Fixpoint split (sep : ascii) (s : string) : list string :=
  match s with
  | EmptyString => [EmptyString]
  | String c rest =>
      if Ascii.eqb c sep then EmptyString :: split sep rest
      else match split sep rest with
           | [] => [String c EmptyString]
           | w :: ws => String c w :: ws
           end
  end.

(** [Boolean(s)] on a string: the empty string is the only falsy one. *)
Definition truthy (s : string) : bool :=
  match s with
  | EmptyString => false
  | String _ _ => true
  end.

(** [s.startsWith(c)] for a one-character prefix. *)
Definition startsWith (c : ascii) (s : string) : bool :=
  match s with
  | EmptyString => false
  | String d _ => Ascii.eqb d c
  end.

(** [s.slice(1)]. *)
Definition slice1 (s : string) : string :=
  match s with
  | EmptyString => EmptyString
  | String _ rest => rest
  end.

(** [xs.join(sep)]. *)
Fixpoint join (sep : string) (xs : list string) : string :=
  match xs with
  | [] => EmptyString
  | [x] => x
  | x :: rest => x ++ sep ++ join sep rest
  end.

End JsString.

(** ** Route matching: [Application.matchRoute] *)

Module Router.
Import JsString.

(** [path.split("/").filter(Boolean)] *)
Definition segments (path : string) : list string :=
  List.filter truthy (split "/"%char path).

(** [params[paramName] = requestSegment] on the object literal [params]:
    an own property is created or overwritten, except under the name
    [__proto__], where the assignment reaches the setter inherited from
    [Object.prototype], which ignores a string: nothing is bound. *)
Definition bindParam (paramName requestSegment : string)
    (params : gmap string string) : gmap string string :=
  if String.eqb paramName "__proto__" then params
  else <[paramName := requestSegment]> params.

(** The [for] loop of [matchRoute].  [requestSegments[i]] past the end of
    the array is [undefined], which the falsy test turns into [null]. *)
Fixpoint matchSegments (routeSegments requestSegments : list string)
    (params : gmap string string) : option (gmap string string) :=
  match routeSegments with
  | [] => Some params
  | routeSegment :: routeRest =>
      match requestSegments with
      | [] => None
      | requestSegment :: requestRest =>
          if negb (truthy routeSegment) || negb (truthy requestSegment)
          then None
          else if startsWith ":"%char routeSegment then
            let paramName := slice1 routeSegment in
            matchSegments routeRest requestRest
              (bindParam paramName requestSegment params)
          else if negb (String.eqb routeSegment requestSegment) then None
          else matchSegments routeRest requestRest params
      end
  end.

Definition matchRoute (routePath requestPath : string)
    : option (gmap string string) :=
  let routeSegments := segments routePath in
  let requestSegments := segments requestPath in
  if negb (Nat.eqb (length routeSegments) (length requestSegments))
  then None
  else matchSegments routeSegments requestSegments ∅.

End Router.

(** ** Dependency container: [Container.resolve] *)

Module Container.

(** The ["scope"] metadata written by [Injectable]. *)
Inductive Scope := Singleton | Transient.

(** Constructors are identified by an index into the program's classes. *)
Definition ClassId := nat.

(** An entry of ["design:paramtypes"]: one of the primitive wrappers
    [String], [Number], [Boolean], or another constructor. *)
Inductive ParamType :=
| PString
| PNumber
| PBoolean
| PClass (c : ClassId).

(** What reflection returns for a constructor: its [name], and the
    ["injectable"], ["scope"] and ["design:paramtypes"] metadata
    ([None] and [[]] when the key was never defined). *)
Record ClassInfo := {
  name : string;
  injectable : bool;
  scope : option Scope;
  paramtypes : list ParamType
}.

(** [Injectable(options)]: defines ["injectable"] and
    ["scope" := options?.scope || "singleton"] on the target. *)
Record InjectableOptions := { opt_scope : option Scope }.

Definition Injectable (options : option InjectableOptions)
    (target : ClassInfo) : ClassInfo :=
  {| name := name target;
     injectable := true;
     scope := Some (match options with
                    | Some {| opt_scope := Some s |} => s
                    | _ => Singleton
                    end);
     paramtypes := paramtypes target |}.

(** [string | constructor] *)
Inductive Token :=
| TString (s : string)
| TClass (c : ClassId).

(** An object built by [new ServiceClass(...dependencies)]: its identity,
    its class, and the arguments it was given ([None] is [undefined],
    [Some o] a reference to the object with identity [o]).  The bodies of
    user constructors are not part of the framework; construction is
    modelled as allocation of a fresh identity. *)
Record Instance := {
  oid : nat;
  cls : ClassId;
  args : list (option nat)
}.

(** The two maps of the container, and the allocation counter of the
    heap the instances live in. *)
Record State := {
  services : gmap string ClassId;
  singletons : gmap string Instance;
  allocated : nat
}.

Definition empty : State :=
  {| services := ∅; singletons := ∅; allocated := 0 |}.

(** [register(token, target)] *)
Definition register (token : string) (target : ClassId) (st : State)
    : State :=
  {| services := <[token := target]> (services st);
     singletons := singletons st;
     allocated := allocated st |}.

(** [clear()] *)
Definition clear (st : State) : State :=
  {| services := ∅; singletons := ∅; allocated := allocated st |}.

(** What [resolve] throws.  [StackOverflow] stands for the unbounded
    recursion on circular constructor dependencies: the model runs out of
    fuel where the program runs out of stack. *)
Inductive Error :=
| ServiceNotFound (serviceToken : string)
| StackOverflow.

Definition is_singleton (s : option Scope) : bool :=
  match s with
  | Some Singleton => true
  | _ => false
  end.

Section Resolve.
Variable classes : ClassId -> ClassInfo.

Definition serviceToken (token : Token) : string :=
  match token with
  | TString s => s
  | TClass c => name (classes c)
  end.

(** [typeof token === "function" ? Reflect.getMetadata("scope", token)
    : "singleton"] *)
Definition tokenScope (token : Token) : option Scope :=
  match token with
  | TString _ => Some Singleton
  | TClass c => scope (classes c)
  end.

Definition cacheSingleton (sc : option Scope) (key : string)
    (instance : Instance) (st : State) : State :=
  if is_singleton sc then
    {| services := services st;
       singletons := <[key := instance]> (singletons st);
       allocated := allocated st |}
  else st.

Definition construct (ServiceClass : ClassId)
    (dependencies : list (option nat)) (st : State) : Instance * State :=
  ({| oid := allocated st; cls := ServiceClass; args := dependencies |},
   {| services := services st;
      singletons := singletons st;
      allocated := S (allocated st) |}).

Fixpoint resolve (fuel : nat) (token : Token) (st : State)
    : Error + Instance * State :=
  match fuel with
  | O => inl StackOverflow
  | S fuel' =>
      let key := serviceToken token in
      let sc := tokenScope token in
      match (if is_singleton sc then singletons st !! key else None) with
      | Some cached => inr (cached, st)
      | None =>
          let ServiceClass :=
            match token with
            | TString s => services st !! s
            | TClass c => Some c
            end in
          match ServiceClass with
          | None => inl (ServiceNotFound key)
          | Some ServiceClass =>
              let resolveAll :=
                fix resolveAll (paramTypes : list ParamType) (st : State)
                    : Error + list (option nat) * State :=
                  match paramTypes with
                  | [] => inr ([], st)
                  | PClass d :: rest =>
                      match resolve fuel' (TClass d) st with
                      | inl e => inl e
                      | inr (dep, st1) =>
                          match resolveAll rest st1 with
                          | inl e => inl e
                          | inr (deps, st2) =>
                              inr (Some (oid dep) :: deps, st2)
                          end
                      end
                  | _ :: rest =>
                      match resolveAll rest st with
                      | inl e => inl e
                      | inr (deps, st2) => inr (None :: deps, st2)
                      end
                  end in
              match resolveAll (paramtypes (classes ServiceClass)) st with
              | inl e => inl e
              | inr (dependencies, st1) =>
                  let '(instance, st2) :=
                    construct ServiceClass dependencies st1 in
                  inr (instance, cacheSingleton sc key instance st2)
              end
          end
      end
  end.

(** The [paramTypes.map(...)] of [resolve], with the fuel left for the
    recursive calls. *)
Fixpoint resolveDependencies (fuel : nat) (paramTypes : list ParamType)
    (st : State) : Error + list (option nat) * State :=
  match paramTypes with
  | [] => inr ([], st)
  | PClass d :: rest =>
      match resolve fuel (TClass d) st with
      | inl e => inl e
      | inr (dep, st1) =>
          match resolveDependencies fuel rest st1 with
          | inl e => inl e
          | inr (deps, st2) => inr (Some (oid dep) :: deps, st2)
          end
      end
  | _ :: rest =>
      match resolveDependencies fuel rest st with
      | inl e => inl e
      | inr (deps, st2) => inr (None :: deps, st2)
      end
  end.

End Resolve.

(** What a run of [resolve] keeps: the registrations, every cached
    singleton key, and the identities allocated so far. *)
Definition extends (st st' : State) : Prop :=
  services st' = services st /\
  allocated st <= allocated st' /\
  (forall k, is_Some (singletons st !! k) -> is_Some (singletons st' !! k)).

(** The cache of [st'] has an entry for every key cached in [st_out]. *)
Definition covers (st_out st' : State) : Prop :=
  forall k, is_Some (singletons st_out !! k) ->
            is_Some (singletons st' !! k).

(** The dependency graph is acyclic when some measure strictly
    decreases from a constructor to each constructor among its
    parameter types. *)
Definition acyclic (classes : ClassId -> ClassInfo) (rank : ClassId -> nat)
    : Prop :=
  forall c d, In (PClass d) (paramtypes (classes c)) -> rank d < rank c.

(** What a constructor receives for a parameter of type [p]:
    [undefined] for the primitive wrappers, an object otherwise. *)
Definition placeholder (p : ParamType) (a : option nat) : Prop :=
  match p with
  | PClass _ => is_Some a
  | _ => a = None
  end.

(** *** A small program: one undecorated class, one [@Injectable()]
    class, one [@Injectable({ scope: "transient" })] class. *)

Definition demo (c : ClassId) : ClassInfo :=
  match c with
  | 0 => {| name := "PlainService"; injectable := false;
            scope := None; paramtypes := [] |}
  | 1 => Injectable None
           {| name := "CachedService"; injectable := false;
              scope := None; paramtypes := [PString; PClass 0] |}
  | 2 => Injectable (Some {| opt_scope := Some Transient |})
           {| name := "TransientService"; injectable := false;
              scope := None; paramtypes := [PClass 1; PNumber] |}
  | _ => {| name := "Object"; injectable := false;
            scope := None; paramtypes := [] |}
  end.

Definition demo_rank (c : ClassId) : nat :=
  match c with
  | 1 => 1
  | 2 => 2
  | _ => 0
  end.

End Container.

(** ** Values of the request pipeline *)

Module Js.

(** What a [throw] carries, as far as the framework looks at it:
    an instance of [HttpException] (or of a subclass); another [Error]
    instance that has a [status] property; any other [Error] instance; or
    a value that is not an [Error] and has no [message] ([shown] is
    [String(value)]). *)
Inductive Exn :=
| HttpException (message : string) (status : Z)
| ErrorWithStatus (message : string) (status : Z)
| Error (message : string)
| ThrownValue (shown : string).

(** [exception.message] *)
Definition exnMessage (exception : Exn) : option string :=
  match exception with
  | HttpException message _ => Some message
  | ErrorWithStatus message _ => Some message
  | Error message => Some message
  | ThrownValue _ => None
  end.

(** [error instanceof Error ? error : new Error(String(error))] *)
Definition toError (error : Exn) : Exn :=
  match error with
  | ThrownValue shown => Error shown
  | _ => error
  end.

(** An argument of [JSON.stringify]. *)
#[warnings="-register-all"]
Inductive Json :=
| JNull
| JBool (b : bool)
| JNumber (n : Z)
| JString (s : string)
| JArray (items : list Json)
| JObject (fields : list (string * Json)).

(** [obj[key]] on the fields of an object literal. *)
Fixpoint field (key : string) (fields : list (string * Json))
    : option Json :=
  match fields with
  | [] => None
  | (k, v) :: rest => if String.eqb k key then Some v else field key rest
  end.

(** The body given to [new Response(body, init)]: [JSON.stringify] of a
    value (kept structured), a string, or [null]. *)
Inductive Body :=
| BodyJson (value : Json)
| BodyText (text : string)
| BodyNull.

Record Response := {
  status : Z;
  headers : list (string * string);
  body : Body
}.

(** [new Response(body, { status })] accepts the status 101 and the
    statuses 200 to 599; for any other it throws a [RangeError]. *)
Definition validStatus (status : Z) : bool :=
  (status =? 101)%Z || ((200 <=? status)%Z && (status <=? 599)%Z).

(** [String(n)] for an integer. *)
Definition showInteger (n : Z) : string :=
  NilZero.string_of_int (Z.to_int n).

(** The [RangeError] of the [Response] constructor (the message is the
    runtime's). *)
Definition statusRangeError (status : Z) : Exn :=
  Error ("The status provided (" ++ showInteger status
         ++ ") must be 101 or in the range of [200, 599]")%string.

(** The [message] field of a JSON body, when there is one. *)
Definition messageOf (r : Response) : option Json :=
  match body r with
  | BodyJson (JObject fields) => field "message" fields
  | _ => None
  end.

(** The request handed to the pipeline by [fetch], with its URL parsed:
    [pathname] and the entries of [searchParams]; [reqHeaders] holds the
    entries of the [Headers] object (lower-cased names); [params] is the
    table attached by the caller after matching; [jsonBody]/[formBody]
    are what [request.json()]/[request.formData()] settle to (the
    rejection on the left). *)
Record Request := {
  method : string;
  pathname : string;
  search : list (string * string);
  reqHeaders : list (string * string);
  params : option (gmap string string);
  jsonBody : Exn + Json;
  formBody : Exn + list (string * string)
}.

(** [Object.fromEntries(entries)]: a later entry overwrites an earlier
    one with the same key. *)
Definition fromEntries (entries : list (string * string))
    : gmap string string :=
  fold_left (fun m kv => <[fst kv := snd kv]> m) entries ∅.

(** [headers.get(name)]: the first entry with that name. *)
Fixpoint headerGet (name : string) (entries : list (string * string))
    : option string :=
  match entries with
  | [] => None
  | (k, v) :: rest => if String.eqb k name then Some v else headerGet name rest
  end.

(** [hay.includes(needle)] *)
Fixpoint includes (needle hay : string) : bool :=
  String.prefix needle hay ||
  match hay with
  | EmptyString => false
  | String _ rest => includes needle rest
  end.

(** [s.toLowerCase()] on the ASCII letters. *)
Definition lowerAscii (c : ascii) : ascii :=
  let n := nat_of_ascii c in
  if (Nat.leb 65 n && Nat.leb n 90)%bool then ascii_of_nat (n + 32) else c.

Fixpoint toLowerCase (s : string) : string :=
  match s with
  | EmptyString => EmptyString
  | String c rest => String (lowerAscii c) (toLowerCase rest)
  end.

(** The values a handler parameter can take; [VInherited name] is the
    member [name] that every plain object inherits from
    [Object.prototype]. *)
Inductive Value :=
| VUndefined
| VNull
| VString (s : string)
| VRecord (entries : gmap string string)
| VJson (value : Json)
| VRequest (request : Request)
| VResponseProxy
| VInherited (name : string).

(** The property names of [Object.prototype]. *)
Definition objectPrototypeNames : list string :=
  ["constructor"; "hasOwnProperty"; "isPrototypeOf"; "propertyIsEnumerable";
   "toLocaleString"; "toString"; "valueOf"; "__proto__";
   "__defineGetter__"; "__defineSetter__";
   "__lookupGetter__"; "__lookupSetter__"].

(** [obj[name]] when [obj] has no own property [name]. *)
Definition inherited (name : string) : Value :=
  if existsb (String.eqb name) objectPrototypeNames then VInherited name
  else VUndefined.

Definition isUndefined (v : Value) : bool :=
  match v with
  | VUndefined => true
  | _ => false
  end.

End Js.

(** ** Asynchronous code: state and exceptions *)

Module Async.
Import Js.

(** What the framework writes with [console.error] and [console.warn]:
    the label and the logged error. *)
Record LogLine := { label : string; logged : Exn }.

(** The part of the world a request can observe and change: the console,
    the wall clock read by [new Date().toISOString()], and a journal that
    user code (guards, pipes, interceptors, filters, handlers) writes to. *)
Record World := {
  console : list LogLine;
  clock : string;
  journal : list string
}.

Inductive Outcome (A : Type) :=
| Returned (a : A)
| Threw (e : Exn).
Arguments Returned {A} a.
Arguments Threw {A} e.

(** A (possibly asynchronous) computation: awaited, it returns or throws,
    and leaves the world changed. *)
Definition M (A : Type) : Type := World -> Outcome A * World.

Definition ret {A} (a : A) : M A := fun w => (Returned a, w).

Definition throw {A} (e : Exn) : M A := fun w => (Threw e, w).

Definition bind {A B} (m : M A) (k : A -> M B) : M B :=
  fun w =>
    match m w with
    | (Returned a, w') => k a w'
    | (Threw e, w') => (Threw e, w')
    end.

(** [try { m } catch (error) { handler(error) }] *)
Definition tryCatch {A} (m : M A) (handler : Exn -> M A) : M A :=
  fun w =>
    match m w with
    | (Returned a, w') => (Returned a, w')
    | (Threw e, w') => handler e w'
    end.

Definition consoleLog (lbl : string) (e : Exn) : M unit :=
  fun w =>
    (Returned tt,
     {| console := console w ++ [{| label := lbl; logged := e |}];
        clock := clock w;
        journal := journal w |}).

(** [new Date().toISOString()] *)
Definition now : M string := fun w => (Returned (clock w), w).

(** An observable action of user code. *)
Definition note (event : string) : M unit :=
  fun w =>
    (Returned tt,
     {| console := console w;
        clock := clock w;
        journal := journal w ++ [event] |}).

Definition world0 : World :=
  {| console := []; clock := "2025-08-22T00:00:00.000Z"; journal := [] |}.

Declare Scope async_scope.
Delimit Scope async_scope with async.
Notation "x <- m ;; k" := (bind m (fun x => k))
  (at level 100, m at next level, right associativity) : async_scope.
Notation "m ;;; k" := (bind m (fun _ => k))
  (at level 100, right associativity) : async_scope.

(** [new Response(body, { status, headers })] *)
Definition newResponse (body : Body) (status : Z)
    (headers : list (string * string)) : M Response :=
  if validStatus status
  then ret {| Js.status := status; Js.headers := headers; Js.body := body |}
  else throw (statusRangeError status).

(** The world after user code has written [events] to the journal. *)
Definition journaled (w : World) (events : list string) : World :=
  {| console := console w; clock := clock w;
     journal := journal w ++ events |}.

(** The world after the framework has written one line to the console. *)
Definition withLog (w : World) (lbl : string) (e : Exn) : World :=
  {| console := console w ++ [{| label := lbl; logged := e |}];
     clock := clock w;
     journal := journal w |}.

End Async.

(** ** Guards: [GuardResolver] and [GuardExecutor] *)

Module Guards.
Import Js Async.
Local Open Scope async_scope.

(** [HttpExecutionContext]: the request, the handler (by method name) and
    the controller class (by name); the response slot is [null] when the
    pipeline builds the context. *)
Record ExecutionContext := {
  getRequest : Request;
  getHandler : string;
  getClass : string
}.

(** The first notification of an [Observable<boolean>], made after
    [subscribe] has returned; a value is kept by its truthiness.  (What a
    notification made from inside [subscribe] leads to depends on how the
    observable treats an exception of its observer; the guard interface
    does not fix it.) *)
Inductive Notification :=
| Next (value : bool)
| Complete
| Failed (error : Exn).

(** What [await guard.canActivate(context)] evaluates to: a plain value
    (kept by its truthiness) or an object with a [subscribe] method. *)
Inductive GuardReturn :=
| Plain (truthy : bool)
| Observable (first : Notification).

Record CanActivate := {
  canActivate : ExecutionContext -> M GuardReturn
}.

(** A guard class: [guardName] is [GuardClass.name]; [createGuard] is
    [container.resolve(GuardClass)], falling back to [new GuardClass()]
    when the container throws. *)
Record GuardClass := {
  guardName : string;
  createGuard : M CanActivate
}.

Record GuardResult := {
  allowed : bool;
  error : option Exn
}.

(** [GuardResolver.resolveGuards]: controller guards first, then method
    guards; a guard that cannot be instantiated is logged and left out. *)
Fixpoint instantiateGuards (allGuardClasses : list GuardClass)
    (guards : list CanActivate) : M (list CanActivate) :=
  match allGuardClasses with
  | [] => ret guards
  | GuardClass :: rest =>
      guards' <- tryCatch
                   (guardInstance <- createGuard GuardClass ;;
                    ret (guards ++ [guardInstance]))
                   (fun error =>
                      consoleLog ("创建守卫实例失败: " ++ guardName GuardClass)
                        error ;;;
                      ret guards) ;;
      instantiateGuards rest guards'
  end.

Definition resolveGuards (controllerGuards methodGuards : list GuardClass)
    : M (list CanActivate) :=
  let allGuardClasses := controllerGuards ++ methodGuards in
  instantiateGuards allGuardClasses [].

(** [GuardResolver.getGlobalGuards]: [globalGuards.map(...)]; a failing
    constructor propagates.  This is the revision of [GuardResolver] that
    returns the array itself, which the handler closure spreads without
    awaiting it. *)
Fixpoint getGlobalGuards (globalGuards : list GuardClass)
    : M (list CanActivate) :=
  match globalGuards with
  | [] => ret []
  | GuardClass :: rest =>
      guard <- createGuard GuardClass ;;
      guards <- getGlobalGuards rest ;;
      ret (guard :: guards)
  end.

(** [GuardExecutor.fromObservable] *)
Definition fromObservable (first : Notification) : M bool :=
  match first with
  | Next value => ret value
  | Failed error => throw error
  | Complete => ret false
  end.

Definition denied : GuardResult :=
  {| allowed := false; error := Some (Error "守卫验证失败") |}.

(** The body of the [for] loop of [GuardExecutor.canActivate]:
    [Some result] when the loop returns [result], [None] when it goes on
    to the next guard. *)
Definition checkGuard (guard : CanActivate) (context : ExecutionContext)
    : M (option GuardResult) :=
  tryCatch
    (result <- canActivate guard context ;;
     match result with
     | Observable first =>
         observableResult <- fromObservable first ;;
         if negb observableResult then ret (Some denied) else ret None
     | Plain truthy =>
         if negb truthy then ret (Some denied) else ret None
     end)
    (fun error =>
       consoleLog "守卫执行错误:" error ;;;
       ret (Some {| allowed := false; error := Some (toError error) |})).

(** [GuardExecutor.canActivate] *)
Fixpoint GuardExecutor_canActivate (guards : list CanActivate)
    (context : ExecutionContext) : M GuardResult :=
  match guards with
  | [] => ret {| allowed := true; error := None |}
  | guard :: rest =>
      verdict <- checkGuard guard context ;;
      match verdict with
      | Some result => ret result
      | None => GuardExecutor_canActivate rest context
      end
  end.

End Guards.

(** ** Exception filters: [FilterResolver], [DefaultExceptionFilter],
    [ExceptionFilterExecutor] *)

Module Filters.
Import Js Async.
Local Open Scope async_scope.

(** [HttpArgumentsHostImpl(req, null)] *)
Record ArgumentsHost := { hostRequest : Request }.

(** What [await filter.catch(exception, host)] evaluates to: a
    [Response], or anything else ([undefined], a plain object, ...). *)
Inductive Caught :=
| CaughtResponse (response : Response)
| CaughtOther.

Record ExceptionFilter := {
  catch : Exn -> ArgumentsHost -> M Caught
}.

(** An entry of the ["filters"] metadata: a class ([createFilter] is
    [container.resolve(filterDef)], falling back to [new filterDef()]) or
    an instance. *)
Inductive FilterDef :=
| FilterClass (createFilter : M ExceptionFilter)
| FilterInstance (filter : ExceptionFilter).

(** [FilterResolver.resolveFilters]: controller filters first, then
    method filters; a class that cannot be instantiated is logged and
    left out. *)
Fixpoint instantiateFilters (allFilterDefs : list FilterDef)
    (filters : list ExceptionFilter) : M (list ExceptionFilter) :=
  match allFilterDefs with
  | [] => ret filters
  | filterDef :: rest =>
      filters' <- tryCatch
                    (filterInstance <-
                       match filterDef with
                       | FilterClass createFilter => createFilter
                       | FilterInstance filter => ret filter
                       end ;;
                     ret (filters ++ [filterInstance]))
                    (fun error =>
                       consoleLog "创建异常过滤器实例失败:" error ;;;
                       ret filters) ;;
      instantiateFilters rest filters'
  end.

Definition resolveFilters (controllerFilters methodFilters : list FilterDef)
    : M (list ExceptionFilter) :=
  let allFilterDefs := controllerFilters ++ methodFilters in
  instantiateFilters allFilterDefs [].

(** [FilterResolver.getGlobalFilters] *)
Fixpoint getGlobalFilters (globalFilters : list FilterDef)
    : M (list ExceptionFilter) :=
  match globalFilters with
  | [] => ret []
  | filterDef :: rest =>
      filter <- match filterDef with
                | FilterClass createFilter => createFilter
                | FilterInstance filter => ret filter
                end ;;
      filters <- getGlobalFilters rest ;;
      ret (filter :: filters)
  end.

(** [DefaultExceptionFilter.getErrorName] *)
Definition getErrorName (status : Z) : string :=
  if Z.eqb status 400 then "Bad Request"
  else if Z.eqb status 401 then "Unauthorized"
  else if Z.eqb status 403 then "Forbidden"
  else if Z.eqb status 404 then "Not Found"
  else if Z.eqb status 405 then "Method Not Allowed"
  else if Z.eqb status 409 then "Conflict"
  else if Z.eqb status 422 then "Unprocessable Entity"
  else if Z.eqb status 429 then "Too Many Requests"
  else if Z.eqb status 500 then "Internal Server Error"
  else if Z.eqb status 502 then "Bad Gateway"
  else if Z.eqb status 503 then "Service Unavailable"
  else if Z.eqb status 504 then "Gateway Timeout"
  else "Unknown Error".

(** [DefaultExceptionFilter.sendErrorResponse] *)
Definition sendErrorResponse (status : Z) (body : Json) : M Response :=
  newResponse (BodyJson body) status [("Content-Type", "application/json")].

(** [DefaultExceptionFilter.catch] *)
Definition DefaultExceptionFilter_catch (exception : Exn)
    (host : ArgumentsHost) : M Response :=
  let request := hostRequest host in
  consoleLog "🚫 异常过滤器捕获到异常:" exception ;;;
  timestamp <- now ;;
  match exception with
  | HttpException message status =>
      sendErrorResponse status
             (JObject [("statusCode", JNumber status);
                       ("message", JString message);
                       ("error", JString (getErrorName status));
                       ("timestamp", JString timestamp);
                       ("path", JString (pathname request))])
  | _ =>
      match exnMessage exception with
      | Some (String c rest as message) =>
          sendErrorResponse 500
            (JObject [("statusCode", JNumber 500);
                      ("message", JString "内部服务器错误");
                      ("error", JString "Internal Server Error");
                      ("details", JString message);
                      ("timestamp", JString timestamp);
                      ("path", JString (pathname request))])
      | _ =>
          sendErrorResponse 500
            (JObject [("statusCode", JNumber 500);
                      ("message", JString "未知错误");
                      ("error", JString "Internal Server Error");
                      ("timestamp", JString timestamp);
                      ("path", JString (pathname request))])
      end
  end.

(** The exceptions the built-in filter can answer: every one but an
    [HttpException] whose status the [Response] constructor refuses. *)
Definition answerable (exception : Exn) : bool :=
  match exception with
  | HttpException _ status => validStatus status
  | _ => true
  end.

(** The last-resort response of [ExceptionFilterExecutor.execute]; its
    status is 500, which the [Response] constructor accepts. *)
Definition fallbackResponse (timestamp : string) : Response :=
  {| Js.status := 500;
     headers := [("Content-Type", "application/json")];
     Js.body := BodyJson
                  (JObject [("statusCode", JNumber 500);
                            ("message", JString "Internal Server Error");
                            ("timestamp", JString timestamp)]) |}.

(** The [for] loop of [ExceptionFilterExecutor.execute]: [Some response]
    when a filter returned a [Response], [None] when the list is
    exhausted. *)
Fixpoint tryFilters (exception : Exn) (filters : list ExceptionFilter)
    (host : ArgumentsHost) : M (option Response) :=
  match filters with
  | [] => ret None
  | filter :: rest =>
      found <- tryCatch
                 (result <- catch filter exception host ;;
                  match result with
                  | CaughtResponse response => ret (Some response)
                  | CaughtOther => ret None
                  end)
                 (fun filterError =>
                    consoleLog "异常过滤器执行失败:" filterError ;;;
                    ret None) ;;
      match found with
      | Some response => ret (Some response)
      | None => tryFilters exception rest host
      end
  end.

(** [ExceptionFilterExecutor.execute] *)
Definition ExceptionFilterExecutor_execute (exception : Exn)
    (filters : list ExceptionFilter) (host : ArgumentsHost) : M Response :=
  found <- tryFilters exception filters host ;;
  match found with
  | Some response => ret response
  | None =>
      result <- DefaultExceptionFilter_catch exception host ;;
      match CaughtResponse result with
      | CaughtResponse response => ret response
      | CaughtOther =>
          timestamp <- now ;;
          ret (fallbackResponse timestamp)
      end
  end.

End Filters.

(** ** Pipes and parameters: [PipeResolver] and [ParamResolver] *)

Module Pipes.
Import Js Async.
Local Open Scope async_scope.

(** [enum ParamType] *)
Inductive ParamType := PARAM | QUERY | BODY | HEADERS | REQUEST | RESPONSE.

(** [ParamMetadata]: what a parameter decorator recorded. *)
Record ParamMetadata := {
  index : nat;
  type : ParamType;
  key : option string
}.

(** [ArgumentMetadata]; [metatype] is the declared type, by name. *)
Record ArgumentMetadata := {
  argType : ParamType;
  metatype : option string;
  data : option string
}.

Record PipeTransform := {
  transform : Value -> ArgumentMetadata -> M Value
}.

(** An entry of the pipe metadata: a class ([createPipe] is
    [container.resolve(pipeDef)], falling back to [new pipeDef()]) or an
    instance. *)
Inductive PipeDef :=
| PipeClass (createPipe : M PipeTransform)
| PipeInstance (pipe : PipeTransform).

(** The metadata of one handler method, and the global pipes. *)
Record HandlerMetadata := {
  params : list ParamMetadata;
  paramTypes : list string;
  globalPipes : list PipeDef;
  classPipes : list PipeDef;
  methodPipes : list PipeDef;
  paramPipes : gmap nat (list PipeDef)
}.

(** [PipeResolver.createPipeInstances] *)
Fixpoint createPipeInstances (pipeDefs : list PipeDef)
    : M (list PipeTransform) :=
  match pipeDefs with
  | [] => ret []
  | pipeDef :: rest =>
      pipe <- match pipeDef with
              | PipeClass createPipe => createPipe
              | PipeInstance pipe => ret pipe
              end ;;
      pipes <- createPipeInstances rest ;;
      ret (pipe :: pipes)
  end.

(** [PipeResolver.getGlobalPipes], in the revision of [PipeResolver] that
    returns the array itself: [executeParameterPipes] spreads the result
    without awaiting it.  ([executePipes] reads the same in both
    revisions.) *)
Definition getGlobalPipes (meta : HandlerMetadata) : M (list PipeTransform) :=
  createPipeInstances (globalPipes meta).

(** [PipeResolver.resolvePipes] *)
Definition resolvePipes (meta : HandlerMetadata) : M (list PipeTransform) :=
  let localPipes := classPipes meta ++ methodPipes meta in
  createPipeInstances localPipes.

(** [PipeResolver.resolveParameterPipes] *)
Definition resolveParameterPipes (meta : HandlerMetadata)
    (parameterIndex : nat) : M (list PipeTransform) :=
  let pipes := default [] (paramPipes meta !! parameterIndex) in
  createPipeInstances pipes.

(** [PipeResolver.executePipes] *)
Fixpoint executePipes (value : Value) (pipes : list PipeTransform)
    (metadata : ArgumentMetadata) : M Value :=
  match pipes with
  | [] => ret value
  | pipe :: rest =>
      transformedValue <-
        tryCatch (transform pipe value metadata)
                 (fun error =>
                    consoleLog "管道执行错误:" error ;;; throw error) ;;
      executePipes transformedValue rest metadata
  end.

(** [ParamResolver.executeParameterPipes] *)
Definition executeParameterPipes (value : Value) (meta : HandlerMetadata)
    (param : ParamMetadata) (paramType : option string) : M Value :=
  globalPipes <- getGlobalPipes meta ;;
  parameterPipes <- resolveParameterPipes meta (index param) ;;
  methodPipes <- resolvePipes meta ;;
  let allPipes := globalPipes ++ methodPipes ++ parameterPipes in
  if Nat.eqb (length allPipes) 0 then ret value
  else
    let metadata := {| argType := type param;
                       metatype := paramType;
                       data := key param |} in
    executePipes value allPipes metadata.

(** A pipe that appends a marker to its input: [transform] returns
    [append(value, marker)] for a function [append] of the application
    that has no effect. *)
Definition markerPipe (append : Value -> string -> Value) (marker : string)
    : PipeTransform :=
  {| transform := fun value _ => ret (append value marker) |}.

(** [typeof value === "string" ? value + marker : value] *)
Definition appendToString (value : Value) (marker : string) : Value :=
  match value with
  | VString s => VString (s ++ marker)
  | _ => value
  end.

(** Handler metadata with one marker pipe in each of the three scopes,
    the parameter-scoped one on parameter [i]. *)
Definition markerMetadata (append : Value -> string -> Value)
    (g m p : string) (i : nat) : HandlerMetadata :=
  {| params := [{| index := i; type := QUERY; key := Some "q" |}];
     paramTypes := [];
     globalPipes := [PipeInstance (markerPipe append g)];
     classPipes := [];
     methodPipes := [PipeInstance (markerPipe append m)];
     paramPipes := {[ i := [PipeInstance (markerPipe append p)] ]} |}.

End Pipes.

Module Params.
Import Js Async Pipes.
Local Open Scope async_scope.

(** [arr[i]] *)
Definition slot (arr : list Value) (i : nat) : Value :=
  default VUndefined (arr !! i).

(** [arr[i] = v]: inside the array the slot is replaced, past its end
    the array grows and the slots in between read [undefined]. *)
Definition assign (i : nat) (v : Value) (arr : list Value) : list Value :=
  if Nat.ltb i (length arr) then <[i := v]> arr
  else arr ++ replicate (i - length arr) VUndefined ++ [v].

(** A property key that is given and truthy. *)
Definition givenKey (k : option string) : option string :=
  match k with
  | Some (String c rest) => k
  | _ => None
  end.

(** [/^\d+$/.test(s)] *)
Definition isDigit (c : ascii) : bool :=
  let n := nat_of_ascii c in (Nat.leb 48 n && Nat.leb n 57)%bool.

Fixpoint allDigits (s : string) : bool :=
  match s with
  | EmptyString => true
  | String c rest => isDigit c && allDigits rest
  end.

(** [ParamResolver.extractPathParams] *)
Definition extractPathParams (pathname : string) (request : Request)
    : gmap string string :=
  match Js.params request with
  | Some table => table
  | None =>
      let pathSegments := Router.segments pathname in
      match last pathSegments with
      | Some lastSegment =>
          if JsString.truthy lastSegment && allDigits lastSegment
          then {[ "id" := lastSegment ]}
          else ∅
      | None => ∅
      end
  end.

(** [table[k]] on a plain object with string values: an own property,
    or else what [Object.prototype] has under that name. *)
Definition lookupString (table : gmap string string) (k : string) : Value :=
  match table !! k with
  | Some s => VString s
  | None => inherited k
  end.

(** Truthiness of the parsed body. *)
Definition truthyBody (body : Value) : bool :=
  match body with
  | VUndefined | VNull => false
  | VString s => JsString.truthy s
  | VJson JNull => false
  | VJson (JBool b) => b
  | VJson (JNumber n) => negb (Z.eqb n 0)
  | VJson (JString s) => JsString.truthy s
  | _ => true
  end.

(** [items[k]] for the own properties of an array: [length] and the
    indices, written as [String(i)]. *)
Fixpoint arrayItem (k : string) (i : nat) (items : list Json)
    : option Json :=
  match items with
  | [] => None
  | item :: rest =>
      if String.eqb k (showInteger (Z.of_nat i)) then Some item
      else arrayItem k (S i) rest
  end.

(** [body[key]] for a truthy parsed body: an object of [JSON.parse] or of
    [Object.fromEntries] (own properties, then [Object.prototype]), or an
    array of [JSON.parse] (its own properties, then [Object.prototype];
    the methods of [Array.prototype] are not told apart from missing
    properties).  The properties of a string, number or boolean body are
    not modelled. *)
Definition bodyField (body : Value) (k : string) : Value :=
  match body with
  | VJson (JObject fields) =>
      match field k fields with
      | Some v => VJson v
      | None => inherited k
      end
  | VJson (JArray items) =>
      if String.eqb k "length"
      then VJson (JNumber (Z.of_nat (length items)))
      else match arrayItem k 0 items with
           | Some v => VJson v
           | None => inherited k
           end
  | VRecord table => lookupString table k
  | _ => VUndefined
  end.

(** The body-parsing block of [resolveParams]. *)
Definition parseBody (request : Request) : M Value :=
  if existsb (String.eqb (method request)) ["POST"; "PUT"; "PATCH"] then
    tryCatch
      (let contentType := default "" (headerGet "content-type"
                                        (reqHeaders request)) in
       if includes "application/json" contentType then
         match jsonBody request with
         | inr parsed => ret (VJson parsed)
         | inl rejection => throw rejection
         end
       else if includes "application/x-www-form-urlencoded" contentType then
         match formBody request with
         | inr entries => ret (VRecord (fromEntries entries))
         | inl rejection => throw rejection
         end
       else ret VNull)
      (fun error => consoleLog "解析请求体失败:" error ;;; ret VNull)
  else ret VNull.

(** The [switch (param.type)] of [resolveParams]. *)
Definition extract (param : ParamMetadata) (request : Request)
    (pathParams queryParams : gmap string string) (body : Value) : Value :=
  match type param with
  | PARAM =>
      match givenKey (key param) with
      | Some k => lookupString pathParams k
      | None => VRecord pathParams
      end
  | QUERY =>
      match givenKey (key param) with
      | Some k => lookupString queryParams k
      | None => VRecord queryParams
      end
  | BODY =>
      match givenKey (key param) with
      | Some k => if truthyBody body then bodyField body k else body
      | None => body
      end
  | HEADERS =>
      let headers := fromEntries (reqHeaders request) in
      match givenKey (key param) with
      | Some k => lookupString headers (toLowerCase k)
      | None => VRecord headers
      end
  | REQUEST => VRequest request
  | RESPONSE => VResponseProxy
  end.

(** The loop over the decorated parameters. *)
Fixpoint bindParams (ps : list ParamMetadata) (meta : HandlerMetadata)
    (request : Request) (container : bool)
    (pathParams queryParams : gmap string string) (body : Value)
    (resolvedParams : list Value) : M (list Value) :=
  match ps with
  | [] => ret resolvedParams
  | param :: rest =>
      let value := extract param request pathParams queryParams body in
      resolvedParams' <-
        (if container then
           transformedValue <-
             executeParameterPipes value meta param
               (paramTypes meta !! index param) ;;
           ret (assign (index param) transformedValue resolvedParams)
         else ret (assign (index param) value resolvedParams)) ;;
      bindParams rest meta request container pathParams queryParams body
        resolvedParams'
  end.

(** The closing loop: [for (let i = 0; i < paramTypes.length; i++)]. *)
Definition fillUndecorated (count : nat) (request : Request)
    (resolvedParams : list Value) : list Value :=
  fold_left
    (fun arr i =>
       if isUndefined (slot arr i) then assign i (VRequest request) arr
       else arr)
    (seq 0 count) resolvedParams.

(** The first half of [resolveParams]: everything up to the end of the
    loop over the decorated parameters. *)
Definition resolveDecorated (meta : HandlerMetadata) (request : Request)
    (container : bool) : M (list Value) :=
  let resolvedParams := replicate (length (paramTypes meta)) VUndefined in
  let pathParams := extractPathParams (pathname request) request in
  let queryParams := fromEntries (search request) in
  body <- parseBody request ;;
  bindParams (Pipes.params meta) meta request container
    pathParams queryParams body resolvedParams.

(** [ParamResolver.resolveParams] *)
Definition resolveParams (meta : HandlerMetadata) (request : Request)
    (container : bool) : M (list Value) :=
  resolvedParams <- resolveDecorated meta request container ;;
  ret (fillUndecorated (length (paramTypes meta)) request resolvedParams).

(** What the argument passed in slot [i] is after the closing loop. *)
Definition filled (request : Request) (v : Value) : Value :=
  if isUndefined v then VRequest request else v.

(** A handler [list(@Query("page") page: string, extra)] and a request
    without query string. *)
Definition listMetadata : HandlerMetadata :=
  {| params := [{| index := 0; type := QUERY; key := Some "page" |}];
     paramTypes := ["String"; "Object"];
     globalPipes := [];
     classPipes := [];
     methodPipes := [];
     paramPipes := ∅ |}.

Definition listRequest : Request :=
  {| method := "GET";
     pathname := "/users";
     search := [];
     reqHeaders := [];
     Js.params := Some ∅;
     jsonBody := inl (Error "Unexpected end of JSON input");
     formBody := inl (Error "not a form") |}.

End Params.

(** ** Interceptors: [InterceptorExecutor]

    An [Observable] is used by the executor as a single-shot channel: it is
    subscribed once and settles with the last value notified before
    [complete], with [complete] alone, or with [error].  It is modelled by
    the computation its subscription runs, and by whether it notifies from
    inside the [subscribe] call (as [SimpleObservable.of] does) or after
    [subscribe] has returned (as [SimpleObservable.fromPromise] does).  A
    computation started by [CallHandlerImpl.handle()] is modelled as run
    when [handle()] is called; the observable [handle()] returns replays
    its outcome. *)

Module Interceptors.
Import Js Async Guards.
Local Open Scope async_scope.

Section WithResult.
(** The type of handler results and its [undefined]. *)
Context {T : Type} (undefined : T).

Inductive Emission :=
| Emitted (value : T)
| Empty.

(** [subscribed] is what subscribing runs (an [error] notification is an
    exception of that run); [immediate] tells that the notifications are
    made before [subscribe] returns. *)
Record Observable := {
  immediate : bool;
  subscribed : M Emission
}.

(** [SimpleObservable.of(value)]: [next] and [complete] are called by the
    subscriber itself. *)
Definition observableOf (value : T) : Observable :=
  {| immediate := true; subscribed := ret (Emitted value) |}.

(** [SimpleObservable.fromPromise(promise)] for a promise that settles to
    [outcome]: the notifications are made from the promise's reactions. *)
Definition fromPromise (outcome : Outcome T) : Observable :=
  {| immediate := false;
     subscribed := match outcome with
                   | Returned value => ret (Emitted value)
                   | Threw error => throw error
                   end |}.

(** [new SimpleObservable((observer) => observer.error(error))] *)
Definition failing (error : Exn) : Observable :=
  {| immediate := true; subscribed := throw error |}.

(** [CallHandler] *)
Record CallHandler := { handle : M Observable }.

Record NestInterceptor := {
  intercept : ExecutionContext -> CallHandler -> M Observable
}.

(** The [handler: () => Promise<T> | T] of [CallHandlerImpl]: a function
    that returns a value or throws, or an [async] function, which returns
    a promise. *)
Inductive HandlerFn :=
| SyncHandler (body : M T)
| AsyncHandler (body : M T).

(** [await handler()] *)
Definition callHandler (handler : HandlerFn) : M T :=
  match handler with
  | SyncHandler body => body
  | AsyncHandler body => body
  end.

(** [new CallHandlerImpl(handler)]: [handle()] calls the handler and
    wraps a promise with [fromPromise], any other result with [of], and
    an exception thrown by the call in an observable that notifies it. *)
Definition CallHandlerImpl (handler : HandlerFn) : CallHandler :=
  {| handle := fun w =>
       match handler with
       | SyncHandler body =>
           match body w with
           | (Returned result, w') => (Returned (observableOf result), w')
           | (Threw error, w') => (Returned (failing error), w')
           end
       | AsyncHandler body =>
           let '(outcome, w') := body w in
           (Returned (fromPromise outcome), w')
       end |}.

(** The [ReferenceError] of reading [subscription] inside the callbacks
    of [const subscription = observable.subscribe({ ... })] before
    [subscribe] has returned (the message is the engine's). *)
Definition uninitializedSubscription : Exn :=
  Error "Cannot access 'subscription' before initialization.".

(** [InterceptorExecutor.observableToPromise].  The [complete] and
    [error] callbacks start with [subscription.unsubscribe()]: called
    from inside [subscribe], they throw, [SimpleObservable.subscribe]
    hands the exception to the [error] callback, which throws again, out
    of the promise executor; the promise rejects with it. *)
Definition observableToPromise (observable : Observable) : M T :=
  if immediate observable then
    tryCatch (subscribed observable ;;; throw uninitializedSubscription)
             (fun _ => throw uninitializedSubscription)
  else
    emission <- subscribed observable ;;
    match emission with
    | Emitted value => ret value
    | Empty => ret undefined
    end.

(** The body of the [for (let i = interceptors.length - 1; i >= 0; i--)]
    loop.  Every element of a [NestInterceptor[]] is an interceptor, so
    the [if (!interceptor) continue] guard never fires. *)
Definition wrap (context : ExecutionContext) (currentHandler : CallHandler)
    (interceptor : NestInterceptor) : CallHandler :=
  let nextHandler := currentHandler in
  CallHandlerImpl
    (AsyncHandler
       (observable <- intercept interceptor context nextHandler ;;
        observableToPromise observable)).

Definition buildChain (interceptors : list NestInterceptor)
    (context : ExecutionContext) (handler : HandlerFn) : CallHandler :=
  fold_left (wrap context) (rev interceptors) (CallHandlerImpl handler).

(** [InterceptorExecutor.execute] *)
Definition InterceptorExecutor_execute (interceptors : list NestInterceptor)
    (context : ExecutionContext) (handler : HandlerFn) : M T :=
  if Nat.eqb (length interceptors) 0 then callHandler handler
  else
    let currentHandler := buildChain interceptors context handler in
    observable <- handle currentHandler ;;
    observableToPromise observable.

(** An interceptor in the style of the built-in [LoggingInterceptor]:
    it acts before calling [next.handle()] and again when the inner
    observable notifies a value, which it passes on; it subscribes to the
    inner observable when it is subscribed itself. *)
Definition tap (observable : Observable) (event : string) : Observable :=
  {| immediate := immediate observable;
     subscribed :=
       emission <- subscribed observable ;;
       match emission with
       | Emitted data => note event ;;; ret (Emitted data)
       | Empty => ret Empty
       end |}.

Definition tracing (name : string) : NestInterceptor :=
  {| intercept := fun context next =>
       note (name ++ "-before") ;;;
       observable <- handle next ;;
       ret (tap observable (name ++ "-after")) |}.

End WithResult.

Arguments Emitted {T} value.
Arguments Empty {T}.

Definition someContext : ExecutionContext :=
  {| getRequest := Params.listRequest;
     getHandler := "list"; getClass := "UserController" |}.

End Interceptors.

(** ** The request handler built by [Application.findMatchingRoute] *)

Module Dispatch.
Import Js Async Guards Filters Pipes Params Interceptors.
Local Open Scope async_scope.

(** What a controller method returns, as the response shaping looks at
    it: a non-null object that is not a [Response], a string, a
    [Response], a falsy value that is not a string ([undefined], [null],
    [false], [0]), or any other value (a truthy number, [true], a
    function), kept by its [String]. *)
Inductive HandlerResult :=
| ResultObject (value : Json)
| ResultString (text : string)
| ResultResponse (response : Response)
| ResultFalsy
| ResultOther (shown : string).

(** What the handler closure resolves to: a [Response], or the raw
    value of the last case above. *)
Inductive Reply :=
| ReplyResponse (response : Response)
| ReplyRaw (shown : string).

(** [RouteInfo], with the metadata that reflection finds under
    [controllerClass] and [methodName]. *)
Record RouteInfo := {
  routeMethod : string;
  routePath : string;
  handler : list Value -> M HandlerResult;
  controllerClass : string;
  methodName : string;
  controllerGuards : list GuardClass;
  methodGuards : list GuardClass;
  controllerFilters : list FilterDef;
  methodFilters : list FilterDef;
  classInterceptors : list (@NestInterceptor HandlerResult);
  methodInterceptors : list (@NestInterceptor HandlerResult);
  handlerMetadata : HandlerMetadata
}.

(** What [useGlobalGuards] and [useGlobalFilters] stored on the
    container (the global pipes are part of [HandlerMetadata]). *)
Record Globals := {
  globalGuards : list GuardClass;
  globalFilters : list FilterDef
}.

(** [new Response(body, { headers })] has status 200. *)
Definition okStatus : Z := 200.

(** The [status] and the [message] chosen when the guards reject: those
    of an error that has both properties, or else 403 and the error's
    message when it is not empty. *)
Definition rejectionStatus (error : option Exn) : Z :=
  match error with
  | Some (HttpException _ status) => status
  | Some (ErrorWithStatus _ status) => status
  | _ => 403
  end.

Definition rejectionMessage (error : option Exn) : string :=
  match error with
  | Some (HttpException message _) => message
  | Some (ErrorWithStatus message _) => message
  | Some (Error message) =>
      if JsString.truthy message then message else "访问被拒绝"
  | Some (ThrownValue _) => "访问被拒绝"
  | None => "访问被拒绝"
  end.

(** The response built when the guards reject, if the constructor
    accepts its status. *)
Definition rejectionResponse (error : option Exn) : Response :=
  {| Js.status := rejectionStatus error;
     headers := [("Content-Type", "application/json")];
     body := BodyJson (JObject [("error", JString "守卫验证失败");
                                ("message", JString (rejectionMessage error))])
  |}.

(** [return new Response(JSON.stringify({ error, message }),
    { status, headers })] of the guard stage. *)
Definition guardRejection (error : option Exn) : M Response :=
  newResponse
    (BodyJson (JObject [("error", JString "守卫验证失败");
                        ("message", JString (rejectionMessage error))]))
    (rejectionStatus error)
    [("Content-Type", "application/json")].

(** Step 6 of the handler closure: response shaping. *)
Definition shape (result : HandlerResult) : Reply :=
  match result with
  | ResultObject value =>
      ReplyResponse {| Js.status := okStatus;
                       headers := [("Content-Type", "application/json")];
                       body := BodyJson value |}
  | ResultString text =>
      ReplyResponse {| Js.status := okStatus;
                       headers := [("Content-Type", "text/plain")];
                       body := BodyText text |}
  | ResultResponse response => ReplyResponse response
  | ResultFalsy =>
      ReplyResponse {| Js.status := okStatus; headers := [];
                       body := BodyText "OK" |}
  | ResultOther shown => ReplyRaw shown
  end.

Definition contextOf (route : RouteInfo) (req : Request) : ExecutionContext :=
  {| getRequest := req;
     getHandler := methodName route;
     getClass := controllerClass route |}.

(** Step 3 of the [try] block: [Some response] when the guards reject. *)
Definition guardStage (guards : list CanActivate)
    (context : ExecutionContext) : M (option Response) :=
  if Nat.ltb 0 (length guards) then
    guardResult <- GuardExecutor_canActivate guards context ;;
    if negb (allowed guardResult)
    then response <- guardRejection (error guardResult) ;;
         ret (Some response)
    else ret None
  else ret None.

(** Steps 4 to 6 of the [try] block. *)
Definition invokeStage (route : RouteInfo) (req : Request) : M Reply :=
  resolvedParams <- resolveParams (handlerMetadata route) req true ;;
  result <- (if Nat.ltb 0 (length resolvedParams)
             then handler route resolvedParams
             else handler route [VRequest req]) ;;
  ret (shape result).

(** The [try] block of the handler closure. *)
Definition tryBlock (globals : Globals) (route : RouteInfo) (req : Request)
    : M Reply :=
  localGuards <- resolveGuards (controllerGuards route) (methodGuards route) ;;
  globalGuards <- getGlobalGuards (globalGuards globals) ;;
  let guards := globalGuards ++ localGuards in
  let context := contextOf route req in
  rejection <- guardStage guards context ;;
  match rejection with
  | Some response => ret (ReplyResponse response)
  | None => invokeStage route req
  end.

(** The [catch] block of the handler closure. *)
Definition catchBlock (globals : Globals) (route : RouteInfo) (req : Request)
    (error : Exn) : M Reply :=
  consoleLog "路由处理错误:" error ;;;
  localFilters <- resolveFilters (controllerFilters route)
                    (methodFilters route) ;;
  globalFilters <- getGlobalFilters (globalFilters globals) ;;
  let filters := globalFilters ++ localFilters in
  let host := {| hostRequest := req |} in
  response <- ExceptionFilterExecutor_execute error filters host ;;
  ret (ReplyResponse response).

(** The [handler: async (req) => { try { ... } catch (error) { ... } }]
    returned by [findMatchingRoute]. *)
Definition handleRequest (globals : Globals) (route : RouteInfo)
    (req : Request) : M Reply :=
  tryCatch (tryBlock globals route req) (catchBlock globals route req).

(** [Application.findMatchingRoute]: the first route, in registration
    order, whose method and path both match, with the path parameters. *)
Fixpoint findMatchingRoute (routes : list RouteInfo)
    (pathname method : string)
    : option (RouteInfo * gmap string string) :=
  match routes with
  | [] => None
  | route :: rest =>
      if negb (String.eqb (routeMethod route) method)
      then findMatchingRoute rest pathname method
      else match Router.matchRoute (routePath route) pathname with
           | Some params => Some (route, params)
           | None => findMatchingRoute rest pathname method
           end
  end.

(** [req.params = matchedRoute.params] *)
Definition withParams (req : Request) (params : gmap string string)
    : Request :=
  {| method := method req;
     pathname := pathname req;
     search := search req;
     reqHeaders := reqHeaders req;
     Js.params := Some params;
     jsonBody := jsonBody req;
     formBody := formBody req |}.

(** The API-route part of [fetch]: [None] is the 404 answer. *)
Definition serve (globals : Globals) (routes : list RouteInfo)
    (req : Request) : M (option Reply) :=
  match findMatchingRoute routes (pathname req) (method req) with
  | Some (route, params) =>
      reply <- handleRequest globals route (withParams req params) ;;
      ret (Some reply)
  | None => ret None
  end.

End Dispatch.

(** ** Guards, filters and routes used in the examples *)

Module Scenarios.
Import Js Async Guards Filters Pipes Params Interceptors Dispatch.
Local Open Scope async_scope.

(** A guard class whose instance is at hand: the container (or [new])
    returns it without doing anything else. *)
Definition guardClassOf (guard : CanActivate) : GuardClass :=
  {| guardName := "Guard"; createGuard := ret guard |}.


(** A guard that records its run and answers [verdict]. *)
Definition recordingGuard (name : string) (verdict : bool) : CanActivate :=
  {| canActivate := fun _ => note name ;;; ret (Plain verdict) |}.

(** A guard that records its run and throws. *)
Definition throwingGuard (name : string) (error : Exn) : CanActivate :=
  {| canActivate := fun _ => note name ;;; throw error |}.

Definition textResponse (status : Z) (text : string) : Response :=
  {| Js.status := status; headers := []; body := BodyText text |}.

(** A filter that records its run and returns a [Response]. *)
Definition respondingFilter (name : string) (status : Z) : ExceptionFilter :=
  {| catch := fun _ _ =>
       note name ;;; ret (CaughtResponse (textResponse status name)) |}.

(** A filter that records its run and returns nothing. *)
Definition silentFilter (name : string) : ExceptionFilter :=
  {| catch := fun _ _ => note name ;;; ret CaughtOther |}.


Definition noMetadata : HandlerMetadata :=
  {| params := []; paramTypes := []; globalPipes := [];
     classPipes := []; methodPipes := []; paramPipes := ∅ |}.

Definition noGlobals : Globals :=
  {| globalGuards := []; globalFilters := [] |}.

(** [GET /users] on [UserController.list], with nothing attached. *)
Definition plainRoute (handler : list Value -> M HandlerResult) : RouteInfo :=
  {| routeMethod := "GET";
     routePath := "/users";
     Dispatch.handler := handler;
     controllerClass := "UserController";
     methodName := "list";
     controllerGuards := [];
     methodGuards := [];
     controllerFilters := [];
     methodFilters := [];
     classInterceptors := [];
     methodInterceptors := [];
     handlerMetadata := noMetadata |}.

(** The same route with other interceptor metadata. *)
Definition withInterceptors (route : RouteInfo)
    (classLevel methodLevel : list (@NestInterceptor HandlerResult))
    : RouteInfo :=
  {| routeMethod := routeMethod route;
     routePath := routePath route;
     Dispatch.handler := Dispatch.handler route;
     controllerClass := controllerClass route;
     methodName := methodName route;
     controllerGuards := controllerGuards route;
     methodGuards := methodGuards route;
     controllerFilters := controllerFilters route;
     methodFilters := methodFilters route;
     classInterceptors := classLevel;
     methodInterceptors := methodLevel;
     handlerMetadata := handlerMetadata route |}.

(** The same route with other guard and filter metadata. *)
Definition withGuards (route : RouteInfo)
    (controllerLevel methodLevel : list GuardClass) : RouteInfo :=
  {| routeMethod := routeMethod route;
     routePath := routePath route;
     Dispatch.handler := Dispatch.handler route;
     controllerClass := controllerClass route;
     methodName := methodName route;
     controllerGuards := controllerLevel;
     methodGuards := methodLevel;
     controllerFilters := controllerFilters route;
     methodFilters := methodFilters route;
     classInterceptors := classInterceptors route;
     methodInterceptors := methodInterceptors route;
     handlerMetadata := handlerMetadata route |}.

Definition withFilters (route : RouteInfo)
    (controllerLevel methodLevel : list FilterDef) : RouteInfo :=
  {| routeMethod := routeMethod route;
     routePath := routePath route;
     Dispatch.handler := Dispatch.handler route;
     controllerClass := controllerClass route;
     methodName := methodName route;
     controllerGuards := controllerGuards route;
     methodGuards := methodGuards route;
     controllerFilters := controllerLevel;
     methodFilters := methodLevel;
     classInterceptors := classInterceptors route;
     methodInterceptors := methodInterceptors route;
     handlerMetadata := handlerMetadata route |}.

(** A handler that records its run and returns the string ["ok"]. *)
Definition okHandler : list Value -> M HandlerResult :=
  fun _ => note "handler" ;;; ret (ResultString "ok").

(** A handler that records its run and throws. *)
Definition failingHandler (error : Exn) : list Value -> M HandlerResult :=
  fun _ => note "handler" ;;; throw error.

(** [@UseInterceptors(A, B)] on the method. *)
Definition tracedRoute : RouteInfo :=
  withInterceptors (plainRoute okHandler) [] [tracing "A"; tracing "B"].


Definition guardedRoute : RouteInfo :=
  withGuards (plainRoute okHandler)
    [guardClassOf (recordingGuard "controller" true)]
    [guardClassOf (recordingGuard "method" true)].






Definition someHost : ArgumentsHost := {| hostRequest := Params.listRequest |}.

End Scenarios.

(** ** Route registration: [Application.combinePaths] *)

Module Paths.
Import JsString.

Definition isSlash (c : ascii) : bool := Ascii.eqb c "/"%char.

(** The [^\/+] alternative of [path.replace(/^\/+|\/+$/g, "")]: the
    slashes the string starts with are removed. *)
Fixpoint dropLeadingSlashes (s : string) : string :=
  match s with
  | EmptyString => EmptyString
  | String c rest => if isSlash c then dropLeadingSlashes rest else s
  end.

(** The [\/+$] alternative: the slashes the string ends with are
    removed. *)
Fixpoint dropTrailingSlashes (s : string) : string :=
  match s with
  | EmptyString => EmptyString
  | String c rest =>
      match dropTrailingSlashes rest with
      | EmptyString => if isSlash c then EmptyString else String c EmptyString
      | kept => String c kept
      end
  end.

(** [s.replace(/\/+/g, "/")]: every run of slashes becomes one slash. *)
Fixpoint collapseSlashes (s : string) : string :=
  match s with
  | EmptyString => EmptyString
  | String c rest =>
      let collapsed := collapseSlashes rest in
      if isSlash c && startsWith "/"%char collapsed then collapsed
      else String c collapsed
  end.

(** [Application.combinePaths(...paths)]: the slash in front is added
    after the runs of slashes have been collapsed. *)
Definition combinePaths (paths : list string) : string :=
  String "/"%char
    (collapseSlashes
       (join "/"
          (map (fun path => dropTrailingSlashes (dropLeadingSlashes path))
               (List.filter truthy paths)))).

(** The [fullPath] that [loadController] registers for a route. *)
Definition fullPath (globalPrefix controllerPath routePath : string)
    : string :=
  combinePaths [globalPrefix; controllerPath; routePath].

End Paths.

(** ** The container's cache: what every operation keeps *)

Module ContainerInvariants.
Import Container.

(** The state with other registrations. *)
Definition withServices (registrations : gmap string ClassId) (st : State)
    : State :=
  {| services := registrations;
     singletons := singletons st;
     allocated := allocated st |}.

(** Every argument that is an object was allocated before [bound]. *)
Definition builtBefore (bound : nat) (arguments : list (option nat)) : Prop :=
  Forall (fun a => forall o, a = Some o -> o < bound) arguments.

(** The cache holds allocated objects, each built after the objects it
    was given, and no object under two keys. *)
Definition wellFormed (st : State) : Prop :=
  (forall k i, singletons st !! k = Some i ->
     oid i < allocated st /\ builtBefore (oid i) (args i)) /\
  (forall k1 k2 i1 i2,
     singletons st !! k1 = Some i1 -> singletons st !! k2 = Some i2 ->
     oid i1 = oid i2 -> k1 = k2).

(** No class of [onCycle] has an instance in the cache. *)
Definition uncached (classes : ClassId -> ClassInfo)
    (onCycle : ClassId -> Prop) (st : State) : Prop :=
  forall c, onCycle c -> singletons st !! name (classes c) = None.

(** Two [@Injectable()] classes declared with the same name. *)
Definition twins (c : ClassId) : ClassInfo :=
  match c with
  | 0 => Injectable None
           {| name := "Logger"; injectable := false;
              scope := None; paramtypes := [] |}
  | _ => Injectable None
           {| name := "Logger"; injectable := false;
              scope := None; paramtypes := [PString] |}
  end.

(** [A] takes a [B], [B] takes a string and an [A]. *)
Definition circular (c : ClassId) : ClassInfo :=
  match c with
  | 0 => Injectable None
           {| name := "A"; injectable := false;
              scope := None; paramtypes := [PClass 1] |}
  | 1 => Injectable None
           {| name := "B"; injectable := false;
              scope := None; paramtypes := [PString; PClass 0] |}
  | _ => {| name := "Object"; injectable := false;
            scope := None; paramtypes := [] |}
  end.

End ContainerInvariants.

(** ** What a guard can fail with *)

Module GuardOutcomes.
Import Js Async Guards.

(** ["status" in error] *)
Definition hasStatus (error : Exn) : bool :=
  match error with
  | HttpException _ _ | ErrorWithStatus _ _ => true
  | _ => false
  end.

(** The guard never fails with an exception that has a [status]. *)
Definition failsWithoutStatus (context : ExecutionContext)
    (guard : CanActivate) : Prop :=
  forall w,
    match canActivate guard context w with
    | (Threw e, _) | (Returned (Observable (Failed e)), _) =>
        hasStatus e = false
    | _ => True
    end.

End GuardOutcomes.

(** ** The built-in [TransformInterceptor] *)

Module BuiltinInterceptors.
Import Js Async Guards Interceptors.
Local Open Scope async_scope.

(** [data && typeof data === "object" && "success" in data] *)
Definition hasSuccess (data : Json) : bool :=
  match data with
  | JObject fields =>
      match field "success" fields with
      | Some _ => true
      | None => false
      end
  | _ => false
  end.

Section Transform.
(** [request.url], which the model of the request keeps in parsed form
    only. *)
Variable url : Request -> string.

(** [context.getRequest?.()?.url || "unknown"] *)
Definition pathOf (context : ExecutionContext) : string :=
  let u := url (getRequest context) in
  if JsString.truthy u then u else "unknown".

(** The [next] callback of [TransformInterceptor]. *)
Definition transformData (context : ExecutionContext) (data : Json)
    : M Json :=
  if hasSuccess data then ret data
  else
    timestamp <- now ;;
    ret (JObject [("success", JBool true);
                  ("data", data);
                  ("timestamp", JString timestamp);
                  ("path", JString (pathOf context))]).

(** [TransformInterceptor.intercept] *)
Definition TransformInterceptor : @NestInterceptor Json :=
  {| intercept := fun context next =>
       observable <- handle next ;;
       ret {| immediate := immediate observable;
              subscribed :=
                emission <- subscribed observable ;;
                match emission with
                | Emitted data =>
                    transformed <- transformData context data ;;
                    ret (Emitted transformed)
                | Empty => ret Empty
                end |} |}.

(** What a handler's outcome becomes on its way through the
    interceptor. *)
Definition transformedOutcome (context : ExecutionContext) (body : M Json)
    (w : World) : Outcome Json * World :=
  match body w with
  | (Returned data, w1) => transformData context data w1
  | (Threw e, w1) => (Threw e, w1)
  end.

End Transform.

End BuiltinInterceptors.

(** ** The built-in pipes: [ValidationPipe] and [ParseIntPipe] *)

Module BuiltinPipes.
Import Js Async Pipes.
Local Open Scope async_scope.

(** class-validator's [ValidationError], as far as the pipe reads it:
    [property], the messages of [constraints] (in the order of
    [Object.values]; [None] when the field is absent) and [children]. *)
#[warnings="-register-all"]
Inductive ValidationError :=
| ValidationErrorOf (property : string)
    (constraints : option (list string))
    (children : list ValidationError).

(** One round of the [for] loop of [flattenValidationErrors]. *)
Fixpoint flattenError (parentPath : string) (error : ValidationError)
    : list string :=
  match error with
  | ValidationErrorOf property constraints children =>
      let currentPath :=
        if JsString.truthy parentPath
        then (parentPath ++ "." ++ property)%string
        else property in
      match constraints with
      | Some messages =>
          map (fun constraint => (currentPath ++ ": " ++ constraint)%string)
              messages
      | None => []
      end ++ flat_map (flattenError currentPath) children
  end.

(** [ValidationPipe.flattenValidationErrors] *)
Definition flattenValidationErrors (validationErrors : list ValidationError)
    (parentPath : string) : list string :=
  flat_map (flattenError parentPath) validationErrors.

(** [ValidationPipe.toValidate], the constructors taken by name. *)
Definition toValidate (metatype : string) : bool :=
  negb (existsb (String.eqb metatype)
          ["String"; "Boolean"; "Number"; "Array"; "Object"; "Buffer"]).

Section Validation.
(** [plainToInstance(metatype, value, ...)] of class-transformer,
    [validate(object, options)] of class-validator, and the
    [exceptionFactory] option of the pipe. *)
Variable plainToInstance : string -> Value -> Value.
Variable validate : Value -> M (list ValidationError).
Variable exceptionFactory : option (list ValidationError -> Exn).

(** What [throwValidationException] throws: without a factory, a
    [ValidationException], which is an [Error] with no [status]. *)
Definition validationException (errors : list ValidationError) : Exn :=
  match exceptionFactory with
  | Some factory => factory errors
  | None =>
      let errorMessages := flattenValidationErrors errors "" in
      Error (JsString.join ", " errorMessages)
  end.

(** [ValidationPipe.transform] *)
Definition ValidationPipe_transform (value : Value)
    (metadata : ArgumentMetadata) : M Value :=
  match metatype metadata with
  | None => ret value
  | Some metatype =>
      if negb (toValidate metatype) then ret value
      else
        match argType metadata with
        | BODY =>
            let object := plainToInstance metatype value in
            errors <- validate object ;;
            if Nat.ltb 0 (length errors)
            then throw (validationException errors)
            else ret object
        | _ => ret value
        end
  end.


End Validation.

(** The options of [ParseIntPipe] that [transform] reads. *)
Record ParseIntOptions := {
  optional : bool;
  min : option Z;
  max : option Z;
  intExceptionFactory : option (string -> Exn)
}.

(** [value === undefined || value === null || value === ""] *)
Definition isEmptyInput (value : Value) : bool :=
  match value with
  | VUndefined | VNull | VJson JNull => true
  | VString s | VJson (JString s) => negb (JsString.truthy s)
  | _ => false
  end.

(** The double-quote character of the messages. *)
Definition quote : string :=
  String (Ascii false true false false false true false false) EmptyString.

Section ParseInt.
(** [parseInt(value, 10)], [None] being [NaN], and the text of a number
    in a template literal; [min] and [max] are taken integral. *)
Variable parseInt : Value -> option Z.
Variable showNumber : Z -> string.
Variable options : ParseIntOptions.

(** [ParseIntPipe.throwError] *)
Definition throwError {A} (message : string) : M A :=
  match intExceptionFactory options with
  | Some factory => throw (factory message)
  | None => throw (HttpException message 400)
  end.

(** [metadata.data || "unknown"] *)
Definition parameterName (metadata : ArgumentMetadata) : string :=
  match data metadata with
  | Some (String c rest as name) => name
  | _ => "unknown"
  end.

(** [ParseIntPipe.transform] *)
Definition ParseIntPipe_transform (value : Value)
    (metadata : ArgumentMetadata) : M Value :=
  if optional options && isEmptyInput value then ret (VJson (JNumber 0))
  else
    match parseInt value with
    | None =>
        throwError ("参数 " ++ quote ++ parameterName metadata ++ quote
                    ++ " 必须是整数")%string
    | Some val =>
        match min options with
        | Some least =>
            if Z.ltb val least then
              throwError ("参数 " ++ quote ++ parameterName metadata ++ quote
                          ++ " 不能小于 " ++ showNumber least)%string
            else ret tt
        | None => ret tt
        end ;;;
        match max options with
        | Some most =>
            if Z.ltb most val then
              throwError ("参数 " ++ quote ++ parameterName metadata ++ quote
                          ++ " 不能大于 " ++ showNumber most)%string
            else ret tt
        | None => ret tt
        end ;;;
        ret (VJson (JNumber val))
    end.

End ParseInt.

End BuiltinPipes.

(** ** Routes and requests used in the examples of path parameters *)

Module Routes.
Import Js Async Dispatch.




End Routes.

(** * Properties *)

Module JsStringFacts.
Import JsString.

Lemma split_nonempty sep s : split sep s <> [].
Proof.
  destruct s as [|c rest]; simpl; [discriminate|].
  destruct (Ascii.eqb c sep); [discriminate|].
  destruct (split sep rest); discriminate.
Qed.

Lemma truthy_true_iff s : truthy s = true <-> s <> EmptyString.
Proof. destruct s; simpl; split; intros; congruence. Qed.

End JsStringFacts.

Module RouterFacts.
Import JsString Router.

Example segments_files : segments "/files/a/b.txt" = ["files"; "a"; "b.txt"].
Proof. reflexivity. Qed.

Example segments_slashes : segments "//users//" = ["users"].
Proof. reflexivity. Qed.

Example match_static : matchRoute "/users/list" "/users/list" = Some ∅.
Proof. reflexivity. Qed.

Example match_static_other : matchRoute "/users" "/posts" = None.
Proof. reflexivity. Qed.

Example match_param :
  matchRoute "/users/:id" "/users/123" = Some {[ "id" := "123" ]}.
Proof. reflexivity. Qed.

Example match_param_short : matchRoute "/users/:id" "/users" = None.
Proof. reflexivity. Qed.

Example join_suffix : join "/" ["a"; "b.txt"] = "a/b.txt".
Proof. reflexivity. Qed.

(** Every piece kept by [segments] is a non-empty string. *)
Lemma segments_truthy path seg :
  In seg (segments path) -> truthy seg = true.
Proof.
  unfold segments. intros Hin. apply filter_In in Hin. tauto.
Qed.

(** A successful loop consumed one request segment per route segment. *)
Lemma matchSegments_some_length rs : forall qs params out,
  matchSegments rs qs params = Some out -> length rs <= length qs.
Proof.
  induction rs as [|r rs IH]; intros qs params out Hm; simpl in *.
  - lia.
  - destruct qs as [|q qs]; [discriminate|].
    destruct (negb (truthy r) || negb (truthy q)); [discriminate|].
    destruct (startsWith ":"%char r).
    + apply IH in Hm. simpl. lia.
    + destruct (negb (String.eqb r q)); [discriminate|].
      apply IH in Hm. simpl. lia.
Qed.

(** [matchRoute] only ever succeeds on equal segment counts, whatever the
    pattern's segments are. *)
Lemma matchRoute_some_same_count routePath requestPath params :
  matchRoute routePath requestPath = Some params ->
  length (segments routePath) = length (segments requestPath).
Proof.
  unfold matchRoute. intros Hm.
  destruct (Nat.eqb (length (segments routePath))
                    (length (segments requestPath))) eqn:Hlen;
    simpl in Hm; [|discriminate].
  now apply Nat.eqb_eq.
Qed.

(** One iteration on a [:name] route segment: it accepts any non-empty
    request segment and records it under [name], unless [name] is
    [__proto__]. *)
Lemma matchSegments_param name rs q qs params :
  truthy q = true ->
  matchSegments (String ":"%char name :: rs) (q :: qs) params
  = matchSegments rs qs (bindParam name q params).
Proof. intros Hq. simpl. rewrite Hq. reflexivity. Qed.

Lemma bindParam_lookup name q params k :
  bindParam name q params !! k
  = if String.eqb name "__proto__" then params !! k
    else if String.eqb name k then Some q
    else params !! k.
Proof.
  unfold bindParam. destruct (String.eqb name "__proto__"); [reflexivity|].
  destruct (String.eqb_spec name k) as [->|Hne].
  - apply lookup_insert_eq.
  - now apply lookup_insert_ne.
Qed.

Example match_param_prototype :
  matchRoute "/users/:__proto__" "/users/42" = Some ∅.
Proof. reflexivity. Qed.

(** One iteration on any other route segment: exact string equality, and
    no binding is added.  The segments ["*"] and ["**"] are such segments. *)
Lemma matchSegments_literal r rs q qs params :
  truthy r = true -> truthy q = true -> startsWith ":"%char r = false ->
  matchSegments (r :: rs) (q :: qs) params
  = if String.eqb r q then matchSegments rs qs params else None.
Proof.
  intros Hr Hq Hs. simpl. rewrite Hr, Hq, Hs. simpl.
  destruct (String.eqb r q); reflexivity.
Qed.

Lemma star_is_literal : startsWith ":"%char "*" = false.
Proof. reflexivity. Qed.

Lemma double_star_is_literal : startsWith ":"%char "**" = false.
Proof. reflexivity. Qed.

(** C1. The source's [matchRoute] has no branch for a trailing ["**"]:
    the pattern [/files/**] against the request path [/files/a/b.txt] is
    rejected on the segment-count test (2 against 3) instead of yielding
    the binding ["**" -> "a/b.txt"]; the same happens on the inputs of the
    repository's own test "matchRoute 支持多段通配符匹配". *)
Theorem matchRoute_double_star_rejected :
  matchRoute "/files/**" "/files/a/b.txt" = None /\
  matchRoute "/files/**" "/files/path/to/file.txt" = None /\
  matchRoute "/files/**" "/files" = None /\
  matchRoute "/files/**" "/files/a/b.txt"
    <> Some {[ "**" := join "/" ["a"; "b.txt"] ]}.
Proof. repeat split; try reflexivity. discriminate. Qed.

(** C8. The source's [matchRoute] compares a ["*"] route segment like any
    static segment: the pattern [/users/*] rejects the request path
    [/users/123] (input of the repository's own test
    "matchRoute 支持单段通配符匹配"), and only the literal request
    segment ["*"] is accepted. *)
Theorem matchRoute_star_is_compared_literally :
  matchRoute "/users/*" "/users/123" = None /\
  matchRoute "/api/*/info" "/api/v1/info" = None /\
  matchRoute "/users/*" "/users/*" = Some ∅.
Proof. repeat split; reflexivity. Qed.

End RouterFacts.

Module ContainerFacts.
Import Container.

Section Facts.
Variable classes : ClassId -> ClassInfo.

(** One unfolding of [resolve], stated with [resolveDependencies]. *)
Lemma resolve_unfold fuel token st :
  resolve classes (S fuel) token st =
  let key := serviceToken classes token in
  let sc := tokenScope classes token in
  match (if is_singleton sc then singletons st !! key else None) with
  | Some cached => inr (cached, st)
  | None =>
      match (match token with
             | TString s => services st !! s
             | TClass c => Some c
             end) with
      | None => inl (ServiceNotFound key)
      | Some ServiceClass =>
          match resolveDependencies classes fuel
                  (paramtypes (classes ServiceClass)) st with
          | inl e => inl e
          | inr (dependencies, st1) =>
              let '(instance, st2) :=
                construct ServiceClass dependencies st1 in
              inr (instance, cacheSingleton sc key instance st2)
          end
      end
  end.
Proof.
  cbn [resolve]. cbv zeta.
  destruct (if is_singleton (tokenScope classes token)
            then singletons st !! serviceToken classes token else None);
    [reflexivity|].
  destruct (match token with
            | TString s => services st !! s
            | TClass c => Some c
            end) as [ServiceClass|]; [|reflexivity].
  assert (Hdeps : forall ps s,
    (fix resolveAll (paramTypes : list ParamType) (st : State)
        : Error + list (option nat) * State :=
       match paramTypes with
       | [] => inr ([], st)
       | PClass d :: rest =>
           match resolve classes fuel (TClass d) st with
           | inl e => inl e
           | inr (dep, st1) =>
               match resolveAll rest st1 with
               | inl e => inl e
               | inr (deps, st2) => inr (Some (oid dep) :: deps, st2)
               end
           end
       | _ :: rest =>
           match resolveAll rest st with
           | inl e => inl e
           | inr (deps, st2) => inr (None :: deps, st2)
           end
       end) ps s = resolveDependencies classes fuel ps s).
  { induction ps as [|p ps IH]; intros s; [reflexivity|].
    destruct p; cbn [resolveDependencies]; try (rewrite IH; reflexivity).
    destruct (resolve classes fuel (TClass c) s) as [e|[dep s1]];
      [reflexivity|].
    rewrite IH. reflexivity. }
  rewrite Hdeps. reflexivity.
Qed.

Lemma extends_refl st : extends st st.
Proof. repeat split; auto. Qed.

Lemma extends_trans st1 st2 st3 :
  extends st1 st2 -> extends st2 st3 -> extends st1 st3.
Proof.
  intros (Hs1 & Ha1 & Hk1) (Hs2 & Ha2 & Hk2). repeat split.
  - congruence.
  - lia.
  - auto.
Qed.

Lemma extends_construct c deps st :
  extends st (snd (construct c deps st)).
Proof. repeat split; simpl; auto. Qed.

Lemma extends_cacheSingleton sc key i st :
  extends st (cacheSingleton sc key i st).
Proof.
  unfold cacheSingleton. destruct (is_singleton sc).
  - repeat split; simpl; auto.
    intros k Hk. destruct (decide (key = k)) as [->|Hne].
    + rewrite lookup_insert_eq. eauto.
    + rewrite lookup_insert_ne by done. exact Hk.
  - apply extends_refl.
Qed.

(** From a property of [resolve] at some fuel to the same property of
    the dependency loop at that fuel. *)
Lemma resolveDependencies_extends fuel :
  (forall token st i st',
      resolve classes fuel token st = inr (i, st') -> extends st st') ->
  forall ps st deps st',
    resolveDependencies classes fuel ps st = inr (deps, st') ->
    extends st st'.
Proof.
  intros IH ps. induction ps as [|p ps IHps]; intros st deps st' Hr.
  - simpl in Hr. inversion Hr; subst. apply extends_refl.
  - destruct p; cbn [resolveDependencies] in Hr;
      try (destruct (resolveDependencies classes fuel ps st)
             as [e|[ds s2]] eqn:Hrest; [discriminate|];
           inversion Hr; subst; eapply IHps; eassumption).
    destruct (resolve classes fuel (TClass c) st) as [e|[dep s1]] eqn:Hdep;
      [discriminate|].
    destruct (resolveDependencies classes fuel ps s1)
      as [e|[ds s2]] eqn:Hrest; [discriminate|].
    inversion Hr; subst.
    eapply extends_trans; [eapply IH; eassumption|].
    eapply IHps; eassumption.
Qed.

Lemma resolve_extends fuel : forall token st i st',
  resolve classes fuel token st = inr (i, st') -> extends st st'.
Proof.
  induction fuel as [|fuel IH]; intros token st i st' Hr;
    [discriminate|].
  rewrite resolve_unfold in Hr. cbv zeta in Hr.
  destruct (if is_singleton (tokenScope classes token)
            then singletons st !! serviceToken classes token else None)
    as [cached|].
  { inversion Hr; subst. apply extends_refl. }
  destruct (match token with
            | TString s => services st !! s
            | TClass c => Some c
            end) as [ServiceClass|]; [|discriminate].
  destruct (resolveDependencies classes fuel
              (paramtypes (classes ServiceClass)) st)
    as [e|[deps s1]] eqn:Hdeps; [discriminate|].
  simpl in Hr. inversion Hr; subst.
  eapply extends_trans.
  { eapply resolveDependencies_extends; eassumption. }
  eapply extends_trans; [|apply extends_cacheSingleton].
  repeat split; simpl; auto.
Qed.

(** A constructor token always has a class to instantiate: the only
    error its resolution can end in is the unbounded recursion. *)
Lemma resolveDependencies_not_found_free fuel :
  (forall c st s,
      resolve classes fuel (TClass c) st <> inl (ServiceNotFound s)) ->
  forall ps st s,
    resolveDependencies classes fuel ps st <> inl (ServiceNotFound s).
Proof.
  intros IH ps. induction ps as [|p ps IHps]; intros st s Hr.
  - discriminate.
  - destruct p; cbn [resolveDependencies] in Hr;
      try (destruct (resolveDependencies classes fuel ps st)
             as [e|[ds s2]] eqn:Hrest; [|discriminate];
           inversion Hr; subst; eapply IHps; eassumption).
    destruct (resolve classes fuel (TClass c) st) as [e|[dep s1]] eqn:Hdep.
    + inversion Hr; subst. eapply IH; eassumption.
    + destruct (resolveDependencies classes fuel ps s1)
        as [e|[ds s2]] eqn:Hrest; [|discriminate].
      inversion Hr; subst. eapply IHps; eassumption.
Qed.

Lemma resolve_class_not_found_free fuel : forall c st s,
  resolve classes fuel (TClass c) st <> inl (ServiceNotFound s).
Proof.
  induction fuel as [|fuel IH]; intros c st s Hr; [discriminate|].
  rewrite resolve_unfold in Hr. cbv zeta in Hr.
  destruct (if is_singleton (tokenScope classes (TClass c))
            then singletons st !! serviceToken classes (TClass c)
            else None) as [cached|]; [discriminate|].
  destruct (resolveDependencies classes fuel (paramtypes (classes c)) st)
    as [e|[deps s1]] eqn:Hdeps; [|discriminate].
  inversion Hr; subst.
  eapply resolveDependencies_not_found_free; eassumption.
Qed.

(** "Service not found" is thrown exactly on a string token that has
    neither a cached singleton nor a registration. *)
Lemma resolve_not_found_iff fuel token st s :
  resolve classes (S fuel) token st = inl (ServiceNotFound s) <->
  token = TString s /\
  singletons st !! s = None /\ services st !! s = None.
Proof.
  split.
  - intros Hr. destruct token as [t|c].
    + rewrite resolve_unfold in Hr. cbv zeta in Hr. simpl in Hr.
      destruct (singletons st !! t) as [cached|] eqn:Hc; [discriminate|].
      destruct (services st !! t) as [ServiceClass|] eqn:Hs.
      * destruct (resolveDependencies classes fuel
                    (paramtypes (classes ServiceClass)) st)
          as [e|[deps s1]] eqn:Hdeps; [|discriminate].
        inversion Hr; subst. exfalso.
        eapply resolveDependencies_not_found_free;
          [apply resolve_class_not_found_free|eassumption].
      * inversion Hr; subst. auto.
    + exfalso. eapply resolve_class_not_found_free; eassumption.
  - intros (-> & Hc & Hs). rewrite resolve_unfold. cbv zeta. simpl.
    rewrite Hc, Hs. reflexivity.
Qed.

(** *** Singleton scope: the cache is hit from the second call on *)

Lemma resolve_singleton_cached fuel token st i st' :
  is_singleton (tokenScope classes token) = true ->
  resolve classes fuel token st = inr (i, st') ->
  singletons st' !! serviceToken classes token = Some i.
Proof.
  intros Hsc Hr. destruct fuel as [|fuel]; [discriminate|].
  rewrite resolve_unfold in Hr. cbv zeta in Hr. rewrite Hsc in Hr.
  destruct (singletons st !! serviceToken classes token)
    as [cached|] eqn:Hc.
  { inversion Hr; subst. exact Hc. }
  destruct (match token with
            | TString s => services st !! s
            | TClass c => Some c
            end) as [ServiceClass|]; [|discriminate].
  destruct (resolveDependencies classes fuel
              (paramtypes (classes ServiceClass)) st)
    as [e|[deps s1]]; [discriminate|].
  simpl in Hr. inversion Hr; subst.
  unfold cacheSingleton. rewrite Hsc. simpl.
  apply lookup_insert_eq.
Qed.

Lemma resolve_cached_hit fuel token st i :
  is_singleton (tokenScope classes token) = true ->
  singletons st !! serviceToken classes token = Some i ->
  resolve classes (S fuel) token st = inr (i, st).
Proof.
  intros Hsc Hc. rewrite resolve_unfold. cbv zeta.
  rewrite Hsc, Hc. reflexivity.
Qed.

(** *** Any other scope: every call allocates *)

Lemma resolve_uncached_fresh fuel token st i st' :
  is_singleton (tokenScope classes token) = false ->
  resolve classes fuel token st = inr (i, st') ->
  allocated st <= oid i /\ allocated st' = S (oid i).
Proof.
  intros Hsc Hr. destruct fuel as [|fuel]; [discriminate|].
  rewrite resolve_unfold in Hr. cbv zeta in Hr. rewrite Hsc in Hr.
  destruct (match token with
            | TString s => services st !! s
            | TClass c => Some c
            end) as [ServiceClass|]; [|discriminate].
  destruct (resolveDependencies classes fuel
              (paramtypes (classes ServiceClass)) st)
    as [e|[deps s1]] eqn:Hdeps; [discriminate|].
  simpl in Hr. inversion Hr; subst. simpl.
  unfold cacheSingleton. rewrite Hsc. simpl. split; [|reflexivity].
  eapply resolveDependencies_extends in Hdeps;
    [|apply resolve_extends].
  destruct Hdeps as (_ & Ha & _). exact Ha.
Qed.

(** *** A call that returned once returns again

    If [resolve] returned from [st] leaving [st_out], it also returns,
    with the same fuel, from any state with the same registrations
    whose cache covers that of [st_out]. *)

Lemma resolveDependencies_returns_again fuel :
  (forall token st i st_out st',
      resolve classes fuel token st = inr (i, st_out) ->
      services st' = services st -> covers st_out st' ->
      exists i' st'', resolve classes fuel token st' = inr (i', st'')) ->
  forall ps st deps st_out st',
    resolveDependencies classes fuel ps st = inr (deps, st_out) ->
    services st' = services st -> covers st_out st' ->
    exists deps' st'',
      resolveDependencies classes fuel ps st' = inr (deps', st'').
Proof.
  intros IH ps. induction ps as [|p ps IHps];
    intros st deps st_out st' Hr Hsv Hcov.
  - simpl. eauto.
  - destruct p; cbn [resolveDependencies] in Hr |- *;
      try (destruct (resolveDependencies classes fuel ps st)
             as [e|[ds s2]] eqn:Hrest; [discriminate|];
           inversion Hr; subst;
           destruct (IHps _ _ _ _ Hrest Hsv Hcov) as (ds' & s'' & ->);
           eauto).
    destruct (resolve classes fuel (TClass c) st)
      as [e|[dep s1]] eqn:Hdep; [discriminate|].
    destruct (resolveDependencies classes fuel ps s1)
      as [e|[ds s2]] eqn:Hrest; [discriminate|].
    inversion Hr; subst.
    assert (Hrest_ext : extends s1 st_out).
    { eapply resolveDependencies_extends;
        [apply resolve_extends|eassumption]. }
    assert (Hdep_ext : extends st s1) by (eapply resolve_extends; eauto).
    destruct (IH (TClass c) st dep s1 st' Hdep Hsv) as (dep' & s1' & Hdep').
    { intros k Hk. apply Hcov. apply Hrest_ext. exact Hk. }
    rewrite Hdep'.
    assert (Hext' : extends st' s1') by (eapply resolve_extends; eauto).
    destruct (IHps s1 ds st_out s1' Hrest) as (ds' & s'' & ->).
    { destruct Hext' as (-> & _). destruct Hdep_ext as (-> & _). auto. }
    { intros k Hk. apply Hext'. apply Hcov. exact Hk. }
    eauto.
Qed.

Lemma resolve_returns_again fuel : forall token st i st_out st',
  resolve classes fuel token st = inr (i, st_out) ->
  services st' = services st -> covers st_out st' ->
  exists i' st'', resolve classes fuel token st' = inr (i', st'').
Proof.
  induction fuel as [|fuel IH]; intros token st i st_out st' Hr Hsv Hcov;
    [discriminate|].
  assert (Hext : extends st st_out) by (eapply resolve_extends; eauto).
  rewrite resolve_unfold in Hr. rewrite resolve_unfold. cbv zeta in *.
  destruct (is_singleton (tokenScope classes token)) eqn:Hsc.
  - destruct (singletons st' !! serviceToken classes token)
      as [cached'|] eqn:Hc'; [eauto|].
    destruct (singletons st !! serviceToken classes token)
      as [cached|] eqn:Hc.
    { exfalso. destruct (Hcov (serviceToken classes token)) as [x Hx].
      - apply Hext. rewrite Hc. eauto.
      - congruence. }
    replace (match token with
             | TString s => services st' !! s
             | TClass c => Some c
             end)
      with (match token with
            | TString s => services st !! s
            | TClass c => Some c
            end) by (destruct token; [rewrite Hsv|]; reflexivity).
    destruct (match token with
              | TString s => services st !! s
              | TClass c => Some c
              end) as [ServiceClass|]; [|discriminate].
    destruct (resolveDependencies classes fuel
                (paramtypes (classes ServiceClass)) st)
      as [e|[deps s1]] eqn:Hdeps; [discriminate|].
    simpl in Hr. inversion Hr; subst.
    destruct (resolveDependencies_returns_again fuel IH _ _ _ _ st'
                Hdeps Hsv) as (deps' & s1' & ->).
    { intros k Hk. apply Hcov.
      apply (extends_cacheSingleton _ _ _ _). simpl. exact Hk. }
    simpl. eauto.
  - replace (match token with
             | TString s => services st' !! s
             | TClass c => Some c
             end)
      with (match token with
            | TString s => services st !! s
            | TClass c => Some c
            end) by (destruct token; [rewrite Hsv|]; reflexivity).
    destruct (match token with
              | TString s => services st !! s
              | TClass c => Some c
              end) as [ServiceClass|]; [|discriminate].
    destruct (resolveDependencies classes fuel
                (paramtypes (classes ServiceClass)) st)
      as [e|[deps s1]] eqn:Hdeps; [discriminate|].
    simpl in Hr. inversion Hr; subst.
    destruct (resolveDependencies_returns_again fuel IH _ _ _ _ st'
                Hdeps Hsv) as (deps' & s1' & ->).
    { intros k Hk. apply Hcov.
      apply (extends_cacheSingleton _ _ _ _). simpl. exact Hk. }
    simpl. eauto.
Qed.

Lemma Injectable_default_scope target :
  scope (Injectable None target) = Some Singleton /\
  scope (Injectable (Some {| opt_scope := None |}) target)
    = Some Singleton.
Proof. split; reflexivity. Qed.

Lemma Injectable_explicit_scope sc target :
  scope (Injectable (Some {| opt_scope := Some sc |}) target) = Some sc.
Proof. reflexivity. Qed.

(** *** Constructors without registration *)

Lemma resolveDependencies_placeholders fuel ps : forall st deps st',
  resolveDependencies classes fuel ps st = inr (deps, st') ->
  Forall2 placeholder ps deps.
Proof.
  induction ps as [|p ps IH]; intros st deps st' Hr.
  - simpl in Hr. inversion Hr; subst. constructor.
  - destruct p; cbn [resolveDependencies] in Hr;
      try (destruct (resolveDependencies classes fuel ps st)
             as [e|[ds s2]] eqn:Hrest; [discriminate|];
           inversion Hr; subst; constructor;
           [reflexivity|eapply IH; eassumption]).
    destruct (resolve classes fuel (TClass c) st)
      as [e|[dep s1]]; [discriminate|].
    destruct (resolveDependencies classes fuel ps s1)
      as [e|[ds s2]] eqn:Hrest; [discriminate|].
    inversion Hr; subst. constructor; [simpl; eauto|].
    eapply IH; eassumption.
Qed.

Lemma resolveDependencies_returns fuel rank :
  (forall d st, rank d < fuel ->
     exists i st', resolve classes fuel (TClass d) st = inr (i, st')) ->
  forall ps st,
    (forall d, In (PClass d) ps -> rank d < fuel) ->
    exists deps st', resolveDependencies classes fuel ps st
                     = inr (deps, st').
Proof.
  intros IH ps. induction ps as [|p ps IHps]; intros st Hps.
  - simpl. eauto.
  - assert (Hrest : forall d, In (PClass d) ps -> rank d < fuel)
      by (intros d Hd; apply Hps; right; exact Hd).
    destruct p; cbn [resolveDependencies];
      try (destruct (IHps st Hrest) as (ds & s2 & ->); eauto).
    destruct (IH c st) as (dep & s1 & ->);
      [apply Hps; left; reflexivity|].
    destruct (IHps s1 Hrest) as (ds & s2 & ->). eauto.
Qed.

Lemma resolve_class_returns rank :
  acyclic classes rank ->
  forall fuel c st, rank c < fuel ->
    exists i st', resolve classes fuel (TClass c) st = inr (i, st').
Proof.
  intros Hacyclic. induction fuel as [|fuel IH]; intros c st Hlt; [lia|].
  rewrite resolve_unfold. cbv zeta.
  destruct (if is_singleton (tokenScope classes (TClass c))
            then singletons st !! serviceToken classes (TClass c)
            else None) as [cached|]; [eauto|].
  destruct (resolveDependencies_returns fuel rank IH
              (paramtypes (classes c)) st) as (deps & s1 & ->).
  { intros d Hd. specialize (Hacyclic c d Hd). lia. }
  simpl. eauto.
Qed.

Lemma resolve_class_fresh_shape fuel c st i st' :
  resolve classes fuel (TClass c) st = inr (i, st') ->
  (if is_singleton (scope (classes c))
   then singletons st !! name (classes c) else None) = None ->
  cls i = c /\ Forall2 placeholder (paramtypes (classes c)) (args i).
Proof.
  intros Hr Hmiss. destruct fuel as [|fuel]; [discriminate|].
  rewrite resolve_unfold in Hr. cbv zeta in Hr. simpl in Hr.
  rewrite Hmiss in Hr.
  destruct (resolveDependencies classes fuel (paramtypes (classes c)) st)
    as [e|[deps s1]] eqn:Hdeps; [discriminate|].
  simpl in Hr. inversion Hr; subst. simpl. split; [reflexivity|].
  eapply resolveDependencies_placeholders; eassumption.
Qed.

End Facts.

Lemma demo_acyclic : acyclic demo demo_rank.
Proof.
  intros c d Hin.
  destruct c as [|[|[|c]]]; simpl in Hin;
    repeat (destruct Hin as [Heq|Hin]; [try discriminate|]);
    try contradiction.
  - inversion Heq; subst. simpl. lia.
  - inversion Heq; subst. simpl. lia.
Qed.

Example demo_transient_twice :
  exists i1 st1 i2 st2,
    resolve demo 3 (TClass 2) empty = inr (i1, st1) /\
    resolve demo 3 (TClass 2) st1 = inr (i2, st2) /\
    oid i1 = 2 /\ oid i2 = 3 /\ args i1 = [Some 1; None].
Proof. do 4 eexists. repeat split; reflexivity. Qed.

(** C7 (as stated, refuted).  A constructor that carries no scope
    marker at all (it was never decorated) is not cached: two [resolve]
    calls build two objects, and nothing is stored in the cache. *)
Lemma unmarked_constructor_resolved_twice :
  scope (demo 0) = None /\
  exists i1 st1 i2 st2,
    resolve demo 1 (TClass 0) empty = inr (i1, st1) /\
    resolve demo 1 (TClass 0) st1 = inr (i2, st2) /\
    oid i1 = 0 /\ oid i2 = 1 /\ i1 <> i2 /\
    singletons st2 !! "PlainService" = None.
Proof.
  split; [reflexivity|]. do 4 eexists.
  repeat split; try reflexivity. discriminate.
Qed.




End ContainerFacts.

Module JsFacts.
Import Js.

Example includes_json :
  includes "application/json" "application/json; charset=utf-8" = true.
Proof. reflexivity. Qed.

Example fromEntries_last_wins :
  fromEntries [("a", "1"); ("a", "2")] !! "a" = Some "2".
Proof. reflexivity. Qed.

Example toLowerCase_header : toLowerCase "X-Token" = "x-token".
Proof. reflexivity. Qed.

Example validStatus_bounds :
  validStatus 99 = false /\ validStatus 101 = true /\
  validStatus 199 = false /\ validStatus 200 = true /\
  validStatus 599 = true /\ validStatus 600 = false.
Proof. repeat split. Qed.

Lemma validStatus_range status :
  (200 <= status <= 599)%Z -> validStatus status = true.
Proof. unfold validStatus. lia. Qed.

Example statusRangeError_text :
  statusRangeError 600
  = Error ("The status provided (600) must be 101 or in the range of "
           ++ "[200, 599]")%string.
Proof. reflexivity. Qed.

Example inherited_members :
  inherited "constructor" = VInherited "constructor" /\
  inherited "id" = VUndefined.
Proof. split; reflexivity. Qed.

End JsFacts.

Module AsyncFacts.
Import Js Async.

Lemma bind_ret_l {A B} (a : A) (k : A -> M B) w : bind (ret a) k w = k a w.
Proof. reflexivity. Qed.

Lemma bind_returned {A B} (m : M A) (k : A -> M B) w a w' :
  m w = (Returned a, w') -> bind m k w = k a w'.
Proof. intros H. unfold bind. rewrite H. reflexivity. Qed.

Lemma bind_threw {A B} (m : M A) (k : A -> M B) w e w' :
  m w = (Threw e, w') -> bind m k w = (Threw e, w').
Proof. intros H. unfold bind. rewrite H. reflexivity. Qed.

Lemma bind_assoc {A B C} (m : M A) (f : A -> M B) (g : B -> M C) w :
  bind (bind m f) g w = bind m (fun a => bind (f a) g) w.
Proof. unfold bind. destruct (m w) as [[a|e] w']; reflexivity. Qed.

Lemma bind_ext {A B} (m : M A) (f g : A -> M B) w :
  (forall a w', f a w' = g a w') -> bind m f w = bind m g w.
Proof.
  intros H. unfold bind. destruct (m w) as [[a|e] w']; [apply H|reflexivity].
Qed.

Lemma bind_ret_r {A} (m : M A) w : bind m ret w = m w.
Proof. unfold bind, ret. destruct (m w) as [[a|e] w']; reflexivity. Qed.


Lemma tryCatch_threw {A} (m : M A) h w e w' :
  m w = (Threw e, w') -> tryCatch m h w = h e w'.
Proof. intros H. unfold tryCatch. rewrite H. reflexivity. Qed.

End AsyncFacts.

Module PipesFacts.
Import Js Async AsyncFacts Pipes.
Local Open Scope async_scope.


Lemma append_empty_r (a : string) : (a ++ "")%string = a.
Proof.
  induction a as [|x a IH]; [reflexivity|].
  change (String x (a ++ "") = String x a)%string. f_equal. exact IH.
Qed.

(** Running a concatenation of pipe lists is running the first list and
    feeding its output to the second. *)
Lemma executePipes_app pipes1 : forall value pipes2 metadata w,
  executePipes value (pipes1 ++ pipes2) metadata w =
  (v1 <- executePipes value pipes1 metadata ;;
   executePipes v1 pipes2 metadata) w.
Proof.
  induction pipes1 as [|pipe pipes1 IH]; intros value pipes2 metadata w.
  - reflexivity.
  - simpl. rewrite bind_assoc. apply bind_ext. intros v w'. apply IH.
Qed.

Lemma createPipeInstances_instances pipes w :
  createPipeInstances (map PipeInstance pipes) w = (Returned pipes, w).
Proof.
  revert w. induction pipes as [|pipe pipes IH]; intros w; [reflexivity|].
  simpl. rewrite bind_ret_l. erewrite bind_returned by apply IH.
  reflexivity.
Qed.

(** A chain of marker pipes applies [append] with the markers from left
    to right. *)
Lemma executePipes_markers append markers : forall value metadata w,
  executePipes value (map (markerPipe append) markers) metadata w =
  (Returned (fold_left append markers value), w).
Proof.
  induction markers as [|m markers IH]; intros value metadata w; simpl.
  - reflexivity.
  - unfold bind, tryCatch. simpl. apply IH.
Qed.


Example pipes_G_M_P :
  executeParameterPipes (VString "in")
    (markerMetadata appendToString "-G" "-M" "-P" 0)
    {| index := 0; type := QUERY; key := Some "q" |} None world0
  = (Returned (VString "in-G-M-P"), world0).
Proof. reflexivity. Qed.

End PipesFacts.

Module ParamsFacts.
Import Js Async AsyncFacts Pipes Params.
Local Open Scope async_scope.

Lemma assign_in_range i v (arr : list Value) :
  i < length arr -> assign i v arr = <[i := v]> arr.
Proof.
  intros Hlt. unfold assign.
  destruct (Nat.ltb i (length arr)) eqn:Hb; [reflexivity|].
  apply Nat.ltb_ge in Hb. lia.
Qed.

Lemma length_assign i v (arr : list Value) :
  length arr <= length (assign i v arr).
Proof.
  unfold assign. destruct (Nat.ltb i (length arr)).
  - rewrite length_insert. lia.
  - rewrite length_app. lia.
Qed.

(** The decorated-parameter loop never shrinks the argument array. *)
Lemma bindParams_length ps : forall meta request container pathParams
    queryParams body arr w out w',
  bindParams ps meta request container pathParams queryParams body arr w
  = (Returned out, w') ->
  length arr <= length out.
Proof.
  induction ps as [|param ps IH];
    intros meta request container pathParams queryParams body arr w out w' Hr.
  - simpl in Hr. inversion Hr; subst. lia.
  - simpl in Hr. unfold bind at 1 in Hr.
    destruct container.
    + unfold bind at 1 in Hr.
      destruct (executeParameterPipes _ meta param _ w) as [[v|e] w1];
        [|discriminate].
      simpl in Hr. apply IH in Hr.
      pose proof (length_assign (index param) v arr). lia.
    + simpl in Hr. apply IH in Hr.
      pose proof (length_assign (index param)
                    (extract param request pathParams queryParams body) arr).
      lia.
Qed.

Lemma resolveDecorated_length meta request container w out w' :
  resolveDecorated meta request container w = (Returned out, w') ->
  length (paramTypes meta) <= length out.
Proof.
  unfold resolveDecorated. intros Hr. unfold bind at 1 in Hr.
  destruct (parseBody request w) as [[body|e] w1]; [|discriminate].
  apply bindParams_length in Hr. rewrite length_replicate in Hr. exact Hr.
Qed.

Lemma fillUndecorated_lookup request count : forall arr,
  count <= length arr ->
  length (fillUndecorated count request arr) = length arr /\
  forall i,
    fillUndecorated count request arr !! i =
    if Nat.ltb i count then Some (filled request (slot arr i))
    else arr !! i.
Proof.
  induction count as [|n IH]; intros arr Hlen.
  - split; [reflexivity|]. intros i. reflexivity.
  - destruct (IH arr) as [Hl Hi]; [lia|].
    unfold fillUndecorated in *. rewrite seq_S, fold_left_app. simpl.
    set (a := fold_left _ (seq 0 n) arr) in *.
    assert (Hn : a !! n = arr !! n).
    { rewrite Hi. destruct (Nat.ltb n n) eqn:Hb; [|reflexivity].
      apply Nat.ltb_lt in Hb. lia. }
    assert (Hslot : slot a n = slot arr n) by (unfold slot; now rewrite Hn).
    rewrite Hslot.
    destruct (isUndefined (slot arr n)) eqn:Hu.
    + rewrite assign_in_range by lia. split.
      * rewrite length_insert. exact Hl.
      * intros i. destruct (decide (i = n)) as [->|Hne].
        -- rewrite list_lookup_insert_eq by lia.
           destruct (Nat.ltb n (S n)) eqn:Hb;
             [|apply Nat.ltb_ge in Hb; lia].
           unfold filled. rewrite Hu. reflexivity.
        -- rewrite list_lookup_insert_ne by congruence. rewrite Hi.
           destruct (Nat.ltb i n) eqn:Hb1, (Nat.ltb i (S n)) eqn:Hb2;
             try reflexivity.
           ++ apply Nat.ltb_lt in Hb1. apply Nat.ltb_ge in Hb2. lia.
           ++ apply Nat.ltb_ge in Hb1. apply Nat.ltb_lt in Hb2. lia.
    + split; [exact Hl|].
      intros i. rewrite Hi. destruct (decide (i = n)) as [->|Hne].
      * destruct (Nat.ltb n n) eqn:Hb1;
          [apply Nat.ltb_lt in Hb1; lia|].
        destruct (Nat.ltb n (S n)) eqn:Hb2;
          [|apply Nat.ltb_ge in Hb2; lia].
        unfold filled. rewrite Hu. unfold slot.
        destruct (arr !! n) as [v|] eqn:Hv; [reflexivity|].
        apply lookup_ge_None in Hv. lia.
      * destruct (Nat.ltb i n) eqn:Hb1, (Nat.ltb i (S n)) eqn:Hb2;
          try reflexivity.
        -- apply Nat.ltb_lt in Hb1. apply Nat.ltb_ge in Hb2. lia.
        -- apply Nat.ltb_ge in Hb1. apply Nat.ltb_lt in Hb2. lia.
Qed.

Example missing_query_key_is_undefined :
  resolveDecorated listMetadata listRequest true world0
  = (Returned [VUndefined; VUndefined], world0).
Proof. reflexivity. Qed.

Example missing_query_key_receives_request :
  resolveParams listMetadata listRequest true world0
  = (Returned [VRequest listRequest; VRequest listRequest], world0).
Proof. reflexivity. Qed.

(** C10.  When [resolveParams] returns, every slot below
    [paramTypes.length] whose value was [undefined] after extraction and
    pipe transformation holds the raw request, whether or not the
    parameter had a declared binding; every other slot keeps its value. *)
Theorem resolveParams_fills_undefined_slots meta request container w out w' :
  resolveParams meta request container w = (Returned out, w') ->
  exists decorated,
    resolveDecorated meta request container w = (Returned decorated, w') /\
    length out = length decorated /\
    forall i, i < length (paramTypes meta) ->
      out !! i =
      Some (if isUndefined (slot decorated i) then VRequest request
            else slot decorated i).
Proof.
  unfold resolveParams. intros Hr. unfold bind at 1 in Hr.
  destruct (resolveDecorated meta request container w)
    as [[decorated|e] w1] eqn:Hd; [|discriminate].
  inversion Hr; subst. exists decorated. split; [reflexivity|].
  pose proof (resolveDecorated_length _ _ _ _ _ _ Hd) as Hlen.
  destruct (fillUndecorated_lookup request _ decorated Hlen) as [Hl Hi].
  split; [exact Hl|].
  intros i Hlt. rewrite Hi.
  destruct (Nat.ltb i (length (paramTypes meta))) eqn:Hb;
    [reflexivity|].
  apply Nat.ltb_ge in Hb. lia.
Qed.

Lemma resolveParams_fills_undefined_slots_witness :
  exists decorated,
    resolveDecorated listMetadata listRequest true world0
    = (Returned decorated, world0) /\
    slot decorated 0 = VUndefined /\
    [VRequest listRequest; VRequest listRequest] !! 0
    = Some (VRequest listRequest).
Proof.
  destruct (resolveParams_fills_undefined_slots listMetadata listRequest
              true world0 [VRequest listRequest; VRequest listRequest]
              world0 eq_refl) as (decorated & Hd & _ & Hi).
  exists decorated. split; [exact Hd|]. split.
  - vm_compute in Hd. inversion Hd. reflexivity.
  - rewrite (Hi 0) by (simpl; lia).
    vm_compute in Hd. inversion Hd. reflexivity.
Defined.

End ParamsFacts.

Module InterceptorsFacts.
Import Js Async AsyncFacts Guards Interceptors.
Local Open Scope async_scope.

Lemma journaled_nil w : journaled w [] = w.
Proof. destruct w. unfold journaled. simpl. now rewrite app_nil_r. Qed.

Lemma journaled_app w xs ys :
  journaled (journaled w xs) ys = journaled w (xs ++ ys).
Proof. unfold journaled. simpl. now rewrite app_assoc. Qed.

Lemma note_journaled event w : note event w = (Returned tt, journaled w [event]).
Proof. reflexivity. Qed.

Section Onion.
Context {T : Type} (undefined : T).

(** The loop wraps from the last interceptor to the first: the chain of
    [x :: xs] is [x] around the chain of [xs]. *)
Lemma buildChain_cons x xs context (handler : HandlerFn) :
  buildChain undefined (x :: xs) context handler =
  wrap undefined context (buildChain undefined xs context handler) x.
Proof.
  unfold buildChain. simpl. rewrite fold_left_app. reflexivity.
Qed.

Lemma buildChain_fold_right xs context (handler : HandlerFn) :
  buildChain undefined xs context handler =
  fold_right (fun x inner => wrap undefined context inner x)
    (CallHandlerImpl handler) xs.
Proof.
  induction xs as [|x xs IH]; [reflexivity|].
  rewrite buildChain_cons, IH. reflexivity.
Qed.

(** Around an [async] handler that records [mark] and returns [result],
    the chain of tracing interceptors records every "before" in
    declaration order, then the handler, then every "after" in reverse
    order. *)
Lemma handle_tracing_chain names : forall context mark (result : T) w,
  handle (buildChain undefined (map tracing names) context
            (AsyncHandler (note mark ;;; ret result))) w =
  (Returned (fromPromise (Returned result)),
   journaled w (map (fun n => n ++ "-before")%string names ++ [mark] ++
                rev (map (fun n => n ++ "-after")%string names))).
Proof.
  induction names as [|n names IH]; intros context mark result w.
  - reflexivity.
  - cbn [map]. rewrite buildChain_cons.
    unfold wrap. cbn [handle CallHandlerImpl].
    cbn [intercept tracing].
    rewrite !bind_assoc. unfold bind at 1. rewrite note_journaled.
    rewrite bind_assoc. unfold bind at 1. rewrite IH.
    rewrite bind_ret_l. unfold observableToPromise, tap, fromPromise.
    cbn [immediate subscribed].
    rewrite bind_assoc, bind_ret_l, bind_assoc.
    unfold bind at 1. rewrite note_journaled.
    rewrite !bind_ret_l. unfold ret.
    rewrite !journaled_app. cbn [rev map].
    repeat rewrite <- app_assoc. reflexivity.
Qed.

Theorem execute_tracing names context mark (result : T) w :
  InterceptorExecutor_execute undefined (map tracing names) context
    (AsyncHandler (note mark ;;; ret result)) w =
  (Returned result,
   journaled w (map (fun n => n ++ "-before")%string names ++ [mark] ++
                rev (map (fun n => n ++ "-after")%string names))).
Proof.
  unfold InterceptorExecutor_execute.
  destruct names as [|n names]; [reflexivity|].
  cbn [length map Nat.eqb].
  erewrite bind_returned by (apply (handle_tracing_chain (n :: names))).
  reflexivity.
Qed.

End Onion.

Example onion_A_B :
  InterceptorExecutor_execute VUndefined [tracing "A"; tracing "B"]
    someContext (AsyncHandler (note "handler" ;;; ret (VString "ok"))) world0
  = (Returned (VString "ok"),
     journaled world0
       ["A-before"; "B-before"; "handler"; "B-after"; "A-after"]).
Proof. reflexivity. Qed.

(** Around a handler that is not [async], the innermost interceptor's
    observable notifies from inside [subscribe]: the chain rejects, after
    the innermost "after". *)
Example onion_A_B_sync_handler :
  InterceptorExecutor_execute VUndefined [tracing "A"; tracing "B"]
    someContext (SyncHandler (note "handler" ;;; ret (VString "ok"))) world0
  = (Threw uninitializedSubscription,
     journaled world0 ["A-before"; "B-before"; "handler"; "B-after"]).
Proof. reflexivity. Qed.

End InterceptorsFacts.

Module GuardsFacts.
Import Js Async AsyncFacts Guards Scenarios.
Local Open Scope async_scope.

Lemma consoleLog_withLog lbl e w :
  consoleLog lbl e w = (Returned tt, withLog w lbl e).
Proof. reflexivity. Qed.

(** One guard: it lets the loop go on, or it ends the loop with a
    rejection; it never throws. *)
Lemma checkGuard_cases guard context w :
  match canActivate guard context w with
  | (Returned (Plain true), w1) | (Returned (Observable (Next true)), w1) =>
      checkGuard guard context w = (Returned None, w1)
  | (Returned (Plain false), w1)
  | (Returned (Observable (Next false)), w1)
  | (Returned (Observable Complete), w1) =>
      checkGuard guard context w = (Returned (Some denied), w1)
  | (Returned (Observable (Failed error)), w1) | (Threw error, w1) =>
      checkGuard guard context w =
      (Returned (Some {| allowed := false; error := Some (toError error) |}),
       withLog w1 "守卫执行错误:" error)
  end.
Proof.
  unfold checkGuard, tryCatch, bind.
  destruct (canActivate guard context w) as [[[[|]|[[|]| |e]]|e] w1];
    reflexivity.
Qed.

Lemma checkGuard_returns guard context w :
  exists verdict w',
    checkGuard guard context w = (Returned verdict, w') /\
    forall result, verdict = Some result -> allowed result = false.
Proof.
  pose proof (checkGuard_cases guard context w) as H.
  destruct (canActivate guard context w) as [[[[|]|[[|]| |e]]|e] w1];
    rewrite H; do 2 eexists; (split; [reflexivity|]);
    intros result Hr; inversion Hr; reflexivity.
Qed.

(** The guard loop never throws. *)
Lemma GuardExecutor_canActivate_returns guards context : forall w,
  exists result w',
    GuardExecutor_canActivate guards context w = (Returned result, w').
Proof.
  induction guards as [|guard rest IH]; intros w.
  - simpl. unfold ret. eauto.
  - simpl. destruct (checkGuard_returns guard context w)
      as (verdict & w1 & Hc & _).
    erewrite bind_returned by exact Hc.
    destruct verdict as [result|]; [unfold ret; eauto|apply IH].
Qed.


(** Guards that all allow hand over to the guards after them. *)
Lemma GuardExecutor_canActivate_allowed_prefix guards1 context :
  forall w result w',
    GuardExecutor_canActivate guards1 context w = (Returned result, w') ->
    allowed result = true ->
    forall guards2,
      GuardExecutor_canActivate (guards1 ++ guards2) context w
      = GuardExecutor_canActivate guards2 context w'.
Proof.
  induction guards1 as [|guard rest IH]; intros w result w' Hr Hallow guards2.
  - simpl in Hr. inversion Hr; subst. reflexivity.
  - simpl in Hr |- *.
    destruct (checkGuard_returns guard context w)
      as (verdict & w1 & Hc & Hv).
    erewrite bind_returned in Hr by exact Hc.
    erewrite bind_returned by exact Hc.
    destruct verdict as [r|].
    + inversion Hr; subst. rewrite (Hv result eq_refl) in Hallow.
      discriminate.
    + eapply IH; eassumption.
Qed.



Lemma getGlobalGuards_instances guards w :
  getGlobalGuards (map guardClassOf guards) w = (Returned guards, w).
Proof.
  revert w. induction guards as [|guard rest IH]; intros w; [reflexivity|].
  simpl. rewrite bind_ret_l. erewrite bind_returned by apply IH.
  reflexivity.
Qed.






End GuardsFacts.

Module FiltersFacts.
Import Js Async AsyncFacts Guards Filters Scenarios GuardsFacts.
Local Open Scope async_scope.

(** One filter of the loop: its [Response] ends the loop; anything else
    it returns is skipped; an exception it throws is logged and skipped. *)
Lemma tryFilters_cons exception filter rest host w :
  tryFilters exception (filter :: rest) host w =
  match catch filter exception host w with
  | (Returned (CaughtResponse response), w1) => (Returned (Some response), w1)
  | (Returned CaughtOther, w1) => tryFilters exception rest host w1
  | (Threw filterError, w1) =>
      tryFilters exception rest host
        (withLog w1 "异常过滤器执行失败:" filterError)
  end.
Proof.
  simpl. unfold bind at 1. unfold tryCatch, bind.
  destruct (catch filter exception host w) as [[[response|]|e] w1];
    reflexivity.
Qed.

(** The filter loop never throws. *)
Lemma tryFilters_returns exception filters host : forall w,
  exists found w',
    tryFilters exception filters host w = (Returned found, w').
Proof.
  induction filters as [|filter rest IH]; intros w.
  - simpl. unfold ret. eauto.
  - rewrite tryFilters_cons.
    destruct (catch filter exception host w) as [[[response|]|e] w1];
      [eauto|apply IH|apply IH].
Qed.

(** Filters that produce no response hand over to the filters after
    them; a response ends the loop. *)
Lemma tryFilters_app exception filters1 host : forall filters2 w,
  tryFilters exception (filters1 ++ filters2) host w =
  match tryFilters exception filters1 host w with
  | (Returned None, w1) => tryFilters exception filters2 host w1
  | other => other
  end.
Proof.
  induction filters1 as [|filter rest IH]; intros filters2 w.
  - reflexivity.
  - rewrite <- app_comm_cons. rewrite !tryFilters_cons.
    destruct (catch filter exception host w) as [[[response|]|e] w1];
      [reflexivity|apply IH|apply IH].
Qed.

(** The built-in filter returns a response when the constructor accepts
    the status: the exception's own status and message for an
    [HttpException], status 500 and a fixed message otherwise. *)
Lemma DefaultExceptionFilter_catch_returns exception host w :
  answerable exception = true ->
  exists response,
    DefaultExceptionFilter_catch exception host w
    = (Returned response, withLog w "🚫 异常过滤器捕获到异常:" exception) /\
    match exception with
    | HttpException message status =>
        Js.status response = status /\
        messageOf response = Some (JString message)
    | _ =>
        Js.status response = 500%Z /\
        exists text, messageOf response = Some (JString text) /\
                     JsString.truthy text = true
    end.
Proof.
  unfold DefaultExceptionFilter_catch, sendErrorResponse, newResponse.
  destruct exception as [message status|[|c message] status
                         |[|c message]|shown]; intros Hok;
    cbn [answerable] in Hok; unfold bind, consoleLog, now; cbn [validStatus];
    try rewrite Hok;
    eexists; (split; [reflexivity|]); simpl; split; try reflexivity;
    eexists; split; reflexivity.
Qed.

(** It throws the constructor's [RangeError] for an [HttpException] with
    any other status, after writing its line to the console. *)
Lemma DefaultExceptionFilter_catch_throws message status host w :
  validStatus status = false ->
  DefaultExceptionFilter_catch (HttpException message status) host w
  = (Threw (statusRangeError status),
     withLog w "🚫 异常过滤器捕获到异常:" (HttpException message status)).
Proof.
  intros Hbad.
  unfold DefaultExceptionFilter_catch, sendErrorResponse, newResponse.
  unfold bind, consoleLog, now. rewrite Hbad. reflexivity.
Qed.

Lemma ExceptionFilterExecutor_execute_found exception filters host w
    response w' :
  tryFilters exception filters host w = (Returned (Some response), w') ->
  ExceptionFilterExecutor_execute exception filters host w
  = (Returned response, w').
Proof.
  intros H. unfold ExceptionFilterExecutor_execute.
  erewrite bind_returned by exact H. reflexivity.
Qed.

Lemma ExceptionFilterExecutor_execute_default exception filters host w w1 :
  tryFilters exception filters host w = (Returned None, w1) ->
  ExceptionFilterExecutor_execute exception filters host w
  = DefaultExceptionFilter_catch exception host w1.
Proof.
  intros H. unfold ExceptionFilterExecutor_execute.
  erewrite bind_returned by exact H. unfold bind.
  destruct (DefaultExceptionFilter_catch exception host w1) as [[r|e] w2];
    reflexivity.
Qed.

Lemma instantiateFilters_instances filters : forall acc w,
  instantiateFilters (map FilterInstance filters) acc w
  = (Returned (acc ++ filters), w).
Proof.
  induction filters as [|filter rest IH]; intros acc w; simpl.
  - rewrite app_nil_r. reflexivity.
  - unfold bind at 1. unfold tryCatch, bind, ret. simpl.
    rewrite IH. rewrite <- app_assoc. reflexivity.
Qed.

Lemma resolveFilters_instances controllerLevel methodLevel w :
  resolveFilters (map FilterInstance controllerLevel)
                 (map FilterInstance methodLevel) w
  = (Returned (controllerLevel ++ methodLevel), w).
Proof.
  unfold resolveFilters. rewrite <- map_app.
  apply (instantiateFilters_instances _ []).
Qed.

(** Resolving the local filters never throws: a class that cannot be
    instantiated is skipped. *)
Lemma instantiateFilters_returns defs : forall acc w,
  exists filters w', instantiateFilters defs acc w = (Returned filters, w').
Proof.
  induction defs as [|def rest IH]; intros acc w.
  - eexists _, _. reflexivity.
  - cbn [instantiateFilters]. unfold bind at 1. unfold tryCatch.
    destruct def as [create|filter].
    + unfold bind at 1. destruct (create w) as [[f|e] w1].
      * cbn. apply IH.
      * cbn. apply IH.
    + cbn. apply IH.
Qed.






(** With no filter at all, an [HttpException] whose message is the empty
    string is answered with that empty message. *)
Lemma empty_message_is_passed_on :
  exists response w',
    ExceptionFilterExecutor_execute (HttpException "" 400) [] someHost world0
    = (Returned response, w') /\
    Js.status response = 400%Z /\
    messageOf response = Some (JString "").
Proof. do 2 eexists. repeat split; reflexivity. Qed.

(** C6.  [ExceptionFilterExecutor.execute] can throw.  It calls the
    built-in filter outside any [try]; for [new HttpException("odd", 99)]
    and no filter, the built-in filter's [new Response] throws a
    [RangeError], which leaves [execute] and then the handler closure,
    whose [catch] block called it: no response is produced and the
    hard-coded fallback is not reached.  The same happens for every
    [HttpException] whose status the constructor refuses when no filter
    of the list produces a response.  For every other exception dispatch
    returns a [Response]: one produced by a filter of the list, or the
    built-in filter's, whose status is the exception's own for an
    [HttpException] and 500 otherwise, and whose message is the
    exception's own (possibly empty) for an [HttpException] and a fixed
    non-empty text otherwise. *)
Theorem ExceptionFilterExecutor_execute_can_throw :
  ExceptionFilterExecutor_execute (HttpException "odd" 99) [] someHost world0
  = (Threw (statusRangeError 99),
     withLog world0 "🚫 异常过滤器捕获到异常:" (HttpException "odd" 99)) /\
  Dispatch.handleRequest noGlobals
    (plainRoute (failingHandler (HttpException "odd" 99)))
    Params.listRequest world0
  = (Threw (statusRangeError 99),
     withLog
       (withLog (journaled world0 ["handler"]) "路由处理错误:"
          (HttpException "odd" 99))
       "🚫 异常过滤器捕获到异常:" (HttpException "odd" 99)) /\
  (forall message status filters host w w1,
      tryFilters (HttpException message status) filters host w
      = (Returned None, w1) ->
      validStatus status = false ->
      ExceptionFilterExecutor_execute (HttpException message status)
        filters host w
      = (Threw (statusRangeError status),
         withLog w1 "🚫 异常过滤器捕获到异常:"
           (HttpException message status))) /\
  (forall exception filters host w,
      answerable exception = true ->
      exists response w',
        ExceptionFilterExecutor_execute exception filters host w
        = (Returned response, w') /\
        (tryFilters exception filters host w
         = (Returned (Some response), w') \/
         exists w1,
           tryFilters exception filters host w = (Returned None, w1) /\
           w' = withLog w1 "🚫 异常过滤器捕获到异常:" exception /\
           match exception with
           | HttpException message status =>
               Js.status response = status /\
               messageOf response = Some (JString message)
           | _ =>
               Js.status response = 500%Z /\
               exists text, messageOf response = Some (JString text) /\
                            text <> ""
           end)).
Proof.
  split; [reflexivity|]. split; [vm_compute; reflexivity|]. split.
  - intros message status filters host w w1 Hf Hbad.
    rewrite (ExceptionFilterExecutor_execute_default _ _ _ _ _ Hf).
    now apply DefaultExceptionFilter_catch_throws.
  - intros exception filters host w Hok.
    destruct (tryFilters_returns exception filters host w)
      as ([response|] & w1 & Hf).
    + exists response, w1. split; [|left; exact Hf].
      apply ExceptionFilterExecutor_execute_found. exact Hf.
    + destruct (DefaultExceptionFilter_catch_returns exception host w1 Hok)
        as (response & Hd & Hshape).
      exists response, (withLog w1 "🚫 异常过滤器捕获到异常:" exception).
      split.
      * rewrite (ExceptionFilterExecutor_execute_default _ _ _ _ _ Hf).
        exact Hd.
      * right. exists w1. split; [exact Hf|]. split; [reflexivity|].
        destruct exception as [message status|message status|message|shown];
          try exact Hshape;
          destruct Hshape as (Hs & text & Hm & Ht);
          (split; [exact Hs|]); exists text; (split; [exact Hm|]);
          intros ->; discriminate.
Qed.

End FiltersFacts.

Module DispatchFacts.
Import Js Async AsyncFacts Guards Filters Pipes Params Interceptors Dispatch.
Import Scenarios GuardsFacts FiltersFacts InterceptorsFacts.
Local Open Scope async_scope.

(** The rejection response is built when the constructor accepts the
    status; otherwise the constructor's [RangeError] is thrown. *)
Lemma guardRejection_cases error w :
  guardRejection error w =
  if validStatus (rejectionStatus error)
  then (Returned (rejectionResponse error), w)
  else (Threw (statusRangeError (rejectionStatus error)), w).
Proof.
  unfold guardRejection, newResponse.
  destruct (validStatus (rejectionStatus error)); reflexivity.
Qed.


(** The guard stage is the guard loop, also on the empty list, followed
    by the construction of the rejection response. *)
Lemma guardStage_loop guards context w :
  guardStage guards context w =
  (guardResult <- GuardExecutor_canActivate guards context ;;
   if negb (allowed guardResult)
   then response <- guardRejection (error guardResult) ;;
        ret (Some response)
   else ret None) w.
Proof.
  unfold guardStage. destruct guards as [|guard rest]; reflexivity.
Qed.




Example guards_all_allow :
  handleRequest
    {| globalGuards := [guardClassOf (recordingGuard "global" true)];
       globalFilters := [] |}
    guardedRoute Params.listRequest world0 =
  (Returned (shape (ResultString "ok")),
   journaled world0 ["global"; "controller"; "method"; "handler"]).
Proof. reflexivity. Qed.

(** The handler closure: whatever the [try] block throws goes to the
    [catch] block. *)
Lemma handleRequest_threw globals route req w error w1 :
  tryBlock globals route req w = (Threw error, w1) ->
  handleRequest globals route req w = catchBlock globals route req error w1.
Proof. intros H. unfold handleRequest. apply tryCatch_threw. exact H. Qed.





(** A guard whose exception carries a status that the [Response]
    constructor refuses does reach the filters: the [RangeError] thrown
    while the rejection is built is what the filters are given. *)
Example guard_error_with_refused_status_reaches_filters :
  handleRequest noGlobals
    (withFilters
       (withGuards (plainRoute okHandler) []
          [guardClassOf (throwingGuard "guard" (HttpException "odd" 1000))])
       [] [FilterInstance (respondingFilter "method" 418)])
    Params.listRequest world0
  = (Returned (ReplyResponse (textResponse 418 "method")),
     {| console := [{| label := "守卫执行错误:";
                       logged := HttpException "odd" 1000 |};
                    {| label := "路由处理错误:";
                       logged := statusRangeError 1000 |}];
        clock := clock world0;
        journal := ["guard"; "method"] |}).
Proof. vm_compute. reflexivity. Qed.

(** The handler closure does not look at the interceptor metadata. *)
Lemma handleRequest_without_interceptors globals route req classLevel
    methodLevel w :
  handleRequest globals (withInterceptors route classLevel methodLevel) req w
  = handleRequest globals route req w.
Proof. reflexivity. Qed.

(** C2.  On the route declared with [@UseInterceptors(A, B)], the handler
    closure of [findMatchingRoute] runs the handler alone: neither
    interceptor is called.  [InterceptorExecutor.execute] on the same
    interceptors and handler records A-before, B-before, handler, B-after,
    A-after (the handler being an [async] method); the closure never calls
    it. *)
Theorem interceptors_are_not_applied :
  Dispatch.findMatchingRoute [tracedRoute] "/users" "GET"
    = Some (tracedRoute, ∅) /\
  handleRequest noGlobals tracedRoute Params.listRequest world0
    = (Returned (shape (ResultString "ok")), journaled world0 ["handler"]) /\
  InterceptorExecutor_execute ResultFalsy (methodInterceptors tracedRoute)
    (contextOf tracedRoute Params.listRequest)
    (AsyncHandler (handler tracedRoute [VRequest Params.listRequest])) world0
    = (Returned (ResultString "ok"),
       journaled world0
         ["A-before"; "B-before"; "handler"; "B-after"; "A-after"]).
Proof. repeat split; reflexivity. Qed.

End DispatchFacts.

(** ** Route registration and matching *)

Module PathsFacts.
Import JsString Router Paths JsStringFacts RouterFacts.

Example combinePaths_plain :
  combinePaths [""; "/users/"; ":id"] = "/users/:id".
Proof. reflexivity. Qed.

(** A controller mounted at ["/"] leaves two slashes in front: the
    leading slash is added after the runs have been collapsed. *)
Example combinePaths_root_controller :
  combinePaths [""; "/"; "/users"] = "//users".
Proof. reflexivity. Qed.

Lemma split_String sep c rest :
  split sep (String c rest) =
  if Ascii.eqb c sep then EmptyString :: split sep rest
  else match split sep rest with
       | [] => [String c EmptyString]
       | w :: ws => String c w :: ws
       end.
Proof. reflexivity. Qed.

Lemma split_app_slash a b :
  split "/"%char (a ++ String "/"%char b)%string
  = split "/"%char a ++ split "/"%char b.
Proof.
  induction a as [|c a IH].
  - change (EmptyString ++ String "/"%char b)%string with (String "/"%char b).
    rewrite split_String. reflexivity.
  - change (String c a ++ String "/"%char b)%string
      with (String c (a ++ String "/"%char b)%string).
    rewrite !split_String, IH.
    destruct (Ascii.eqb c "/"%char); [reflexivity|].
    destruct (split "/"%char a) as [|w ws] eqn:E.
    + now apply split_nonempty in E.
    + reflexivity.
Qed.

Lemma segments_app_slash a b :
  segments (a ++ String "/"%char b)%string = segments a ++ segments b.
Proof. unfold segments. rewrite split_app_slash. apply List.filter_app. Qed.

Lemma segments_slash s : segments (String "/"%char s) = segments s.
Proof. reflexivity. Qed.

Lemma isSlash_true c : isSlash c = true -> c = "/"%char.
Proof. apply Ascii.eqb_eq. Qed.

Lemma segments_dropLeadingSlashes s :
  segments (dropLeadingSlashes s) = segments s.
Proof.
  induction s as [|c s IH]; [reflexivity|].
  cbn [dropLeadingSlashes]. destruct (isSlash c) eqn:E; [|reflexivity].
  apply isSlash_true in E. subst c. now rewrite IH.
Qed.

Lemma filter_truthy_replicate k :
  List.filter truthy (replicate k EmptyString) = [].
Proof. induction k as [|k IH]; [reflexivity|exact IH]. Qed.

(** Dropping the trailing slashes drops empty pieces at the end. *)
Lemma split_dropTrailingSlashes s :
  exists k, split "/"%char s
            = split "/"%char (dropTrailingSlashes s) ++ replicate k EmptyString.
Proof.
  induction s as [|c s [k IH]].
  - exists 0. reflexivity.
  - cbn [dropTrailingSlashes].
    destruct (dropTrailingSlashes s) as [|d kept] eqn:Ekept.
    + destruct (isSlash c) eqn:E.
      * apply isSlash_true in E. subst c. exists (S k).
        rewrite split_String, Ascii.eqb_refl, IH. reflexivity.
      * exists k. unfold isSlash in E. rewrite !split_String, E, IH.
        reflexivity.
    + destruct (isSlash c) eqn:E.
      * apply isSlash_true in E. subst c. exists k.
        rewrite (split_String _ "/"%char s), Ascii.eqb_refl, IH.
        rewrite (split_String _ "/"%char (String d kept)), Ascii.eqb_refl.
        reflexivity.
      * exists k. unfold isSlash in E.
        rewrite (split_String _ c s), E, IH.
        rewrite (split_String _ c (String d kept)), E.
        destruct (split "/"%char (String d kept)) as [|w ws] eqn:E2.
        -- now apply split_nonempty in E2.
        -- reflexivity.
Qed.

Lemma segments_dropTrailingSlashes s :
  segments (dropTrailingSlashes s) = segments s.
Proof.
  destruct (split_dropTrailingSlashes s) as [k Hk].
  unfold segments. rewrite Hk, List.filter_app, filter_truthy_replicate.
  now rewrite app_nil_r.
Qed.

(** Collapsing the runs of slashes keeps the first piece and drops empty
    pieces after it. *)
Lemma split_collapseSlashes s :
  exists w ws ws',
    split "/"%char s = w :: ws /\
    split "/"%char (collapseSlashes s) = w :: ws' /\
    List.filter truthy ws = List.filter truthy ws'.
Proof.
  induction s as [|c s (w & ws & ws' & Hs & Hc & Hf)].
  - exists EmptyString, [], []. repeat split.
  - cbn [collapseSlashes].
    destruct (isSlash c) eqn:E.
    + apply isSlash_true in E. subst c.
      destruct (startsWith "/"%char (collapseSlashes s)) eqn:Es; cbn [andb].
      * destruct (collapseSlashes s) as [|d r] eqn:Er; [discriminate|].
        cbn [startsWith] in Es. apply Ascii.eqb_eq in Es. subst d.
        rewrite split_String, Ascii.eqb_refl in Hc.
        injection Hc as Hw Hws'. subst w.
        exists EmptyString, (split "/"%char s), ws'. repeat split.
        -- rewrite split_String, Ascii.eqb_refl. now rewrite Hws'.
        -- rewrite Hs. cbn [List.filter truthy]. exact Hf.
      * exists EmptyString, (split "/"%char s),
          (split "/"%char (collapseSlashes s)). repeat split.
        rewrite Hs, Hc. cbn [List.filter]. now rewrite Hf.
    + cbn [andb]. unfold isSlash in E.
      exists (String c w), ws, ws'. repeat split.
      * now rewrite split_String, E, Hs.
      * now rewrite split_String, E, Hc.
      * exact Hf.
Qed.

Lemma segments_collapseSlashes s :
  segments (collapseSlashes s) = segments s.
Proof.
  destruct (split_collapseSlashes s) as (w & ws & ws' & Hs & Hc & Hf).
  unfold segments. rewrite Hs, Hc. cbn [List.filter]. now rewrite Hf.
Qed.

Lemma segments_join xs :
  segments (join "/" xs) = concat (map segments xs).
Proof.
  induction xs as [|x [|y rest] IH].
  - reflexivity.
  - cbn. now rewrite app_nil_r.
  - change (join "/" (x :: y :: rest))
      with (x ++ String "/"%char (join "/" (y :: rest)))%string.
    rewrite segments_app_slash, IH. reflexivity.
Qed.

Lemma concat_segments_filter paths :
  concat (map segments (List.filter truthy paths))
  = concat (map segments paths).
Proof.
  induction paths as [|p paths IH]; [reflexivity|].
  cbn [List.filter]. destruct p as [|c p]; cbn [truthy].
  - exact IH.
  - cbn [map concat]. now rewrite IH.
Qed.

Lemma segments_combinePaths paths :
  segments (combinePaths paths) = concat (map segments paths).
Proof.
  unfold combinePaths. rewrite segments_slash, segments_collapseSlashes.
  rewrite segments_join, map_map.
  rewrite <- concat_segments_filter.
  f_equal. apply map_ext. intros p.
  now rewrite segments_dropTrailingSlashes, segments_dropLeadingSlashes.
Qed.

(** X1.  The path [combinePaths] builds starts with a slash, and the
    segments the matcher reads from it are the segments of the given
    parts, in order: empty parts and leading, trailing or doubled slashes
    in a part change nothing.  So the path registered for a route has the
    segments of the global prefix, then those of the controller path, then
    those of the route path.  (The path itself can keep two slashes in
    front, or one at the end.) *)
Theorem combinePaths_segments paths :
  segments (combinePaths paths) = concat (map segments paths) /\
  startsWith "/"%char (combinePaths paths) = true /\
  forall globalPrefix controllerPath routePath,
    segments (fullPath globalPrefix controllerPath routePath)
    = segments globalPrefix ++ segments controllerPath
      ++ segments routePath.
Proof.
  split; [apply segments_combinePaths|]. split; [reflexivity|].
  intros globalPrefix controllerPath routePath.
  unfold fullPath. rewrite segments_combinePaths. cbn [map concat].
  now rewrite app_nil_r.
Qed.

End PathsFacts.

Module RouterLaws.
Import JsString Router JsStringFacts RouterFacts.

Lemma segments_all_truthy path :
  Forall (fun seg => truthy seg = true) (segments path).
Proof.
  apply List.Forall_forall. intros seg Hin. eapply segments_truthy, Hin.
Qed.

Lemma startsWith_colon r :
  startsWith ":"%char r = true -> r = String ":"%char (slice1 r).
Proof.
  destruct r as [|c r]; [discriminate|]. cbn. intros H.
  apply Ascii.eqb_eq in H. now subst c.
Qed.

Lemma matchSegments_is_Some rs : forall qs acc,
  length rs = length qs ->
  Forall (fun seg => truthy seg = true) rs ->
  Forall (fun seg => truthy seg = true) qs ->
  (is_Some (matchSegments rs qs acc) <->
   Forall2 (fun r q => startsWith ":"%char r = false -> r = q) rs qs).
Proof.
  induction rs as [|r rs IH]; intros [|q qs] acc Hlen Hrs Hqs;
    try discriminate Hlen.
  - cbn. split; [constructor|eauto].
  - apply Forall_cons in Hrs as [Hr Hrs]. apply Forall_cons in Hqs as [Hq Hqs].
    cbn [length] in Hlen. apply Nat.succ_inj in Hlen.
    cbn [matchSegments]. rewrite Hr, Hq. cbn [negb orb].
    destruct (startsWith ":"%char r) eqn:Ecolon.
    + rewrite IH by assumption. split.
      * intros H. constructor; [intros Hs; congruence|exact H].
      * intros H. now apply Forall2_cons in H as [_ H].
    + destruct (String.eqb r q) eqn:Eeq; cbn [negb].
      * apply String.eqb_eq in Eeq. subst q. rewrite IH by assumption. split.
        -- intros H. constructor; [intros _; reflexivity|exact H].
        -- intros H. now apply Forall2_cons in H as [_ H].
      * apply String.eqb_neq in Eeq. split.
        -- intros [x Hx]. discriminate.
        -- intros H. apply Forall2_cons in H as [H _].
           now specialize (H Ecolon).
Qed.

(** X2.  A route path matches a request path exactly when both have the
    same number of segments and every route segment that does not start
    with a colon equals the request segment at its position. *)
Theorem matchRoute_succeeds_iff routePath requestPath :
  is_Some (matchRoute routePath requestPath) <->
  length (segments routePath) = length (segments requestPath) /\
  forall i routeSegment requestSegment,
    segments routePath !! i = Some routeSegment ->
    segments requestPath !! i = Some requestSegment ->
    startsWith ":"%char routeSegment = false ->
    routeSegment = requestSegment.
Proof.
  unfold matchRoute.
  destruct (Nat.eqb (length (segments routePath))
                    (length (segments requestPath))) eqn:Elen; cbn [negb].
  - apply Nat.eqb_eq in Elen.
    rewrite matchSegments_is_Some
      by (try exact Elen; apply segments_all_truthy).
    rewrite Forall2_lookup. split.
    + intros H. split; [exact Elen|]. intros i r q Hr Hq.
      specialize (H i). rewrite Hr, Hq in H. now inversion H.
    + intros [_ H] i.
      destruct (segments routePath !! i) as [r|] eqn:Hr;
        destruct (segments requestPath !! i) as [q|] eqn:Hq.
      * constructor. now apply (H i).
      * apply lookup_lt_Some in Hr. apply lookup_ge_None in Hq. lia.
      * apply lookup_lt_Some in Hq. apply lookup_ge_None in Hr. lia.
      * constructor.
  - apply Nat.eqb_neq in Elen. split.
    + intros [x Hx]. discriminate.
    + intros [H _]. contradiction.
Qed.

(** Where the last [":name"] segment is, one segment further. *)
Lemma last_param_cons_other (r : string) rs (q : string) qs name value :
  r <> String ":"%char name ->
  (exists i, (r :: rs) !! i = Some (String ":"%char name) /\
             (q :: qs) !! i = Some value /\
             forall j, i < j -> (r :: rs) !! j <> Some (String ":"%char name))
  <->
  (exists i, rs !! i = Some (String ":"%char name) /\
             qs !! i = Some value /\
             forall j, i < j -> rs !! j <> Some (String ":"%char name)).
Proof.
  intros Hr. split.
  - intros (i & Hi & Hq & Hlater). destruct i as [|i]; [cbn in Hi; congruence|].
    exists i. repeat split; [exact Hi|exact Hq|].
    intros j Hj. apply (Hlater (S j)). lia.
  - intros (i & Hi & Hq & Hlater). exists (S i).
    repeat split; [exact Hi|exact Hq|].
    intros [|j] Hj; [lia|]. cbn. apply Hlater. lia.
Qed.

Lemma last_param_cons_same rs (q : string) qs name value :
  (exists i, (String ":"%char name :: rs) !! i = Some (String ":"%char name) /\
             (q :: qs) !! i = Some value /\
             forall j, i < j ->
               (String ":"%char name :: rs) !! j
               <> Some (String ":"%char name))
  <->
  (exists i, rs !! i = Some (String ":"%char name) /\
             qs !! i = Some value /\
             forall j, i < j -> rs !! j <> Some (String ":"%char name)) \/
  (q = value /\ forall j, rs !! j <> Some (String ":"%char name)).
Proof.
  split.
  - intros (i & Hi & Hq & Hlater). destruct i as [|i].
    + right. cbn in Hq. injection Hq as ->. split; [reflexivity|].
      intros j. apply (Hlater (S j)). lia.
    + left. exists i. repeat split; [exact Hi|exact Hq|].
      intros j Hj. apply (Hlater (S j)). lia.
  - intros [(i & Hi & Hq & Hlater)|[-> Hnone]].
    + exists (S i). repeat split; [exact Hi|exact Hq|].
      intros [|j] Hj; [lia|]. cbn. apply Hlater. lia.
    + exists 0. repeat split. intros [|j] Hj; [lia|]. cbn. apply Hnone.
Qed.

Lemma no_param_cons (r : string) rs name :
  (forall j, (r :: rs) !! j <> Some (String ":"%char name)) <->
  r <> String ":"%char name /\
  forall j, rs !! j <> Some (String ":"%char name).
Proof.
  split.
  - intros H. split.
    + intros ->. now apply (H 0).
    + intros j. apply (H (S j)).
  - intros [Hr H] [|j]; cbn; [congruence|apply H].
Qed.

(** The bindings the loop leaves: for each name but [__proto__], the
    request segment at the last position where the route has [":name"],
    or what [acc] held when there is no such position; under [__proto__],
    what [acc] held. *)
Lemma matchSegments_bindings rs : forall qs acc out,
  matchSegments rs qs acc = Some out ->
  forall name value,
    out !! name = Some value <->
    (name <> "__proto__" /\
     exists i, rs !! i = Some (String ":"%char name) /\
               qs !! i = Some value /\
               forall j, i < j -> rs !! j <> Some (String ":"%char name)) \/
    (acc !! name = Some value /\
     (name <> "__proto__" ->
      forall j, rs !! j <> Some (String ":"%char name))).
Proof.
  induction rs as [|r rs IH]; intros qs acc out Hm name value.
  - cbn in Hm. injection Hm as <-. split.
    + intros H. right. split; [exact H|]. intros _ j. now rewrite lookup_nil.
    + intros [(_ & i & Hi & _)|[H _]]; [now rewrite lookup_nil in Hi|exact H].
  - destruct qs as [|q qs]; [discriminate Hm|].
    cbn [matchSegments] in Hm.
    destruct (negb (truthy r) || negb (truthy q)); [discriminate Hm|].
    destruct (startsWith ":"%char r) eqn:Ecolon.
    + apply startsWith_colon in Ecolon. cbv zeta in Hm.
      specialize (IH _ _ _ Hm name value). rewrite IH. clear IH Hm.
      set (n := slice1 r) in *. clearbody n. subst r.
      rewrite bindParam_lookup, no_param_cons.
      destruct (String.eqb_spec n name) as [->|Hne].
      * rewrite last_param_cons_same.
        destruct (String.eqb_spec name "__proto__") as [->|Hproto].
        -- tauto.
        -- split.
           ++ intros [H|[Hq Hnone]]; [tauto|].
              injection Hq as ->. left. split; [exact Hproto|]. right.
              split; [reflexivity|]. now apply Hnone.
           ++ intros [[_ [H|[-> Hnone]]]|[_ H]].
              ** left. tauto.
              ** right. split; [reflexivity|]. intros _. exact Hnone.
              ** exfalso. destruct (H Hproto) as [Habs _]. now apply Habs.
      * assert (Hr : String ":"%char n <> String ":"%char name) by congruence.
        rewrite (last_param_cons_other _ _ _ _ _ _ Hr).
        destruct (String.eqb n "__proto__"); tauto.
    + destruct (negb (String.eqb r q)); [discriminate Hm|].
      specialize (IH _ _ _ Hm name value). rewrite IH. clear IH Hm.
      assert (Hr : r <> String ":"%char name).
      { intros ->. cbn in Ecolon. discriminate. }
      rewrite (last_param_cons_other _ _ _ _ _ _ Hr), no_param_cons. tauto.
Qed.

Lemma matchRoute_lookup routePath requestPath params name value :
  matchRoute routePath requestPath = Some params ->
  (params !! name = Some value <->
   name <> "__proto__" /\
   exists i,
     segments routePath !! i = Some (String ":"%char name) /\
     segments requestPath !! i = Some value /\
     forall j, i < j ->
       segments routePath !! j <> Some (String ":"%char name)).
Proof.
  unfold matchRoute.
  destruct (negb _); [discriminate|]. intros Hm.
  rewrite (matchSegments_bindings _ _ _ _ Hm name value).
  split.
  - intros [H|[H _]]; [exact H|]. now rewrite lookup_empty in H.
  - intros H. now left.
Qed.

(** X3.  The table a successful match returns binds [name] to [value]
    exactly when [name] is not [__proto__] and [value] is the request
    segment at the last position where the route has the segment
    [":name"]: every parameter segment but [":__proto__"] is bound,
    nothing else is, and of two parameters with one name the later
    wins. *)
Theorem matchRoute_bindings routePath requestPath params name value :
  matchRoute routePath requestPath = Some params ->
  (params !! name = Some value <->
   name <> "__proto__" /\
   exists i,
     segments routePath !! i = Some (String ":"%char name) /\
     segments requestPath !! i = Some value /\
     forall j, i < j ->
       segments routePath !! j <> Some (String ":"%char name)).
Proof. apply matchRoute_lookup. Qed.

Lemma matchRoute_bindings_witness :
  ({[ "id" := "42" ]} : gmap string string) !! "id" = Some "42" <->
  "id" <> "__proto__" /\
  exists i,
    segments "/users/:id/posts" !! i = Some ":id" /\
    segments "/users/42/posts" !! i = Some "42" /\
    forall j, i < j -> segments "/users/:id/posts" !! j <> Some ":id".
Proof.
  apply (matchRoute_bindings "/users/:id/posts" "/users/42/posts").
  reflexivity.
Defined.

End RouterLaws.

(** ** The container: registration, cache and circular dependencies *)

Module ContainerLaws.
Import Container ContainerInvariants ContainerFacts.

(** What a call that misses the cache does. *)
Lemma resolve_miss_inv classes fuel token st i st' :
  resolve classes (S fuel) token st = inr (i, st') ->
  (if is_singleton (tokenScope classes token)
   then singletons st !! serviceToken classes token else None) = None ->
  exists ServiceClass dependencies st1,
    match token with
    | TString s => services st !! s
    | TClass c => Some c
    end = Some ServiceClass /\
    resolveDependencies classes fuel (paramtypes (classes ServiceClass)) st
    = inr (dependencies, st1) /\
    i = {| oid := allocated st1; cls := ServiceClass;
           args := dependencies |} /\
    st' = cacheSingleton (tokenScope classes token)
            (serviceToken classes token) i
            {| services := services st1; singletons := singletons st1;
               allocated := S (allocated st1) |}.
Proof.
  intros Hr Hmiss. rewrite resolve_unfold in Hr. cbv zeta in Hr.
  rewrite Hmiss in Hr.
  destruct (match token with
            | TString s => services st !! s
            | TClass c => Some c
            end) as [ServiceClass|]; [|discriminate].
  destruct (resolveDependencies classes fuel
              (paramtypes (classes ServiceClass)) st)
    as [e|[deps s1]] eqn:Hdeps; [discriminate|].
  simpl in Hr. inversion Hr; subst.
  exists ServiceClass, deps, s1. auto.
Qed.

Lemma resolve_miss_fresh classes fuel token st i st' :
  resolve classes fuel token st = inr (i, st') ->
  (if is_singleton (tokenScope classes token)
   then singletons st !! serviceToken classes token else None) = None ->
  allocated st <= oid i.
Proof.
  intros Hr Hmiss. destruct fuel as [|fuel]; [discriminate|].
  destruct (resolve_miss_inv _ _ _ _ _ _ Hr Hmiss)
    as (sc & deps & s1 & _ & Hdeps & -> & _).
  eapply resolveDependencies_extends in Hdeps; [|apply resolve_extends].
  destruct Hdeps as (_ & Ha & _). exact Ha.
Qed.



(** X7.  After [clear()], every string token is "not found", and a
    constructor (dependencies acyclic) is built anew: the instance has an
    identity allocated after the [clear], also when a singleton of that
    constructor was cached before. *)
Theorem clear_forgets classes rank st :
  acyclic classes rank ->
  (forall token fuel,
      resolve classes (S fuel) (TString token) (clear st)
      = inl (ServiceNotFound token)) /\
  (forall c fuel, rank c < fuel ->
      exists i st',
        resolve classes fuel (TClass c) (clear st) = inr (i, st') /\
        cls i = c /\ allocated st <= oid i).
Proof.
  intros Hacyclic. split.
  - intros token fuel. apply resolve_not_found_iff.
    repeat split; apply lookup_empty.
  - intros c fuel Hfuel.
    destruct (resolve_class_returns classes rank Hacyclic fuel c (clear st)
                Hfuel) as (i & st' & Hr).
    exists i, st'. split; [exact Hr|].
    assert (Hmiss : (if is_singleton (tokenScope classes (TClass c))
                     then singletons (clear st)
                            !! serviceToken classes (TClass c)
                     else None) = None).
    { destruct (is_singleton _); [apply lookup_empty|reflexivity]. }
    split.
    + eapply resolve_class_fresh_shape; [exact Hr|]. exact Hmiss.
    + apply (resolve_miss_fresh classes _ _ _ _ _ Hr Hmiss).
Qed.

Lemma clear_forgets_witness :
  (forall token fuel,
      resolve demo (S fuel) (TString token) (clear empty)
      = inl (ServiceNotFound token)) /\
  (forall c fuel, demo_rank c < fuel ->
      exists i st',
        resolve demo fuel (TClass c) (clear empty) = inr (i, st') /\
        cls i = c /\ allocated empty <= oid i).
Proof. apply (clear_forgets demo demo_rank empty). exact demo_acyclic. Defined.

(** X8.  The cache is keyed by the constructor's [name]: once a singleton
    of [c] has been built, resolving another singleton constructor [d]
    with the same name returns that instance of [c]; [d] is never
    constructed. *)
Theorem same_name_singletons_share_instance classes fuel c d st i st1 :
  scope (classes c) = Some Singleton ->
  scope (classes d) = Some Singleton ->
  name (classes c) = name (classes d) ->
  singletons st !! name (classes c) = None ->
  resolve classes fuel (TClass c) st = inr (i, st1) ->
  cls i = c /\
  forall fuel', resolve classes (S fuel') (TClass d) st1 = inr (i, st1).
Proof.
  intros Hc Hd Hname Hmiss Hr. split.
  - eapply resolve_class_fresh_shape; [exact Hr|].
    rewrite Hc. exact Hmiss.
  - intros fuel'. apply resolve_cached_hit.
    + cbn [tokenScope]. now rewrite Hd.
    + cbn [serviceToken]. rewrite <- Hname.
      apply (resolve_singleton_cached classes fuel (TClass c) st i st1).
      * cbn [tokenScope]. now rewrite Hc.
      * exact Hr.
Qed.

Lemma same_name_singletons_share_instance_witness :
  exists i st1,
    resolve twins 1 (TClass 0) empty = inr (i, st1) /\
    cls i = 0 /\
    forall fuel', resolve twins (S fuel') (TClass 1) st1 = inr (i, st1).
Proof.
  eexists _, _. split; [reflexivity|].
  apply (same_name_singletons_share_instance twins 1 0 1 empty);
    reflexivity.
Defined.

Section Cycles.
Variable classes : ClassId -> ClassInfo.
Variable onCycle : ClassId -> Prop.
Hypothesis Hnext : forall c, onCycle c ->
  exists d, onCycle d /\ In (PClass d) (paramtypes (classes c)).
Hypothesis Hnames : forall c d,
  onCycle c -> name (classes d) = name (classes c) -> onCycle d.

Lemma resolveDependencies_cycle fuel :
  (forall c st, onCycle c -> uncached classes onCycle st ->
     resolve classes fuel (TClass c) st = inl StackOverflow) ->
  (forall d st i st', uncached classes onCycle st ->
     resolve classes fuel (TClass d) st = inr (i, st') ->
     uncached classes onCycle st') ->
  forall ps st, uncached classes onCycle st ->
    (forall deps st', resolveDependencies classes fuel ps st
                      = inr (deps, st') -> uncached classes onCycle st') /\
    (forall d, onCycle d -> In (PClass d) ps ->
       resolveDependencies classes fuel ps st = inl StackOverflow).
Proof.
  intros Hfail Hkeep ps.
  induction ps as [|p ps IH]; intros st Hst.
  - split.
    + intros deps st' Hr. inversion Hr; subst. exact Hst.
    + intros d _ [].
  - destruct p as [| | |e].
    1-3: cbn [resolveDependencies];
      destruct (IH st Hst) as [IHkeep IHfail]; split;
      [ intros deps st' Hr;
        destruct (resolveDependencies classes fuel ps st)
          as [err|[ds s2]] eqn:Hrest; [discriminate|];
        inversion Hr; subst; eapply IHkeep; reflexivity
      | intros d Hd [Heq|Hin]; [discriminate|];
        rewrite (IHfail d Hd Hin); reflexivity ].
    cbn [resolveDependencies].
    destruct (resolve classes fuel (TClass e) st) as [err|[dep s1]] eqn:He.
    + split; [discriminate|]. intros d Hd _.
      destruct err as [s|]; [|reflexivity].
      exfalso. eapply resolve_class_not_found_free, He.
    + pose proof (Hkeep _ _ _ _ Hst He) as Hs1.
      destruct (IH s1 Hs1) as [IHkeep IHfail]. split.
      * intros deps st' Hr.
        destruct (resolveDependencies classes fuel ps s1)
          as [err|[ds s2]] eqn:Hrest; [discriminate|].
        inversion Hr; subst. eapply IHkeep; reflexivity.
      * intros d Hd [Heq|Hin].
        -- injection Heq as ->. rewrite (Hfail _ _ Hd Hst) in He.
           discriminate.
        -- rewrite (IHfail d Hd Hin). reflexivity.
Qed.

(** With any fuel: a class of the cycle runs out of it, and a call that
    returns leaves the classes of the cycle out of the cache. *)
Lemma resolve_cycle fuel :
  (forall c st, onCycle c -> uncached classes onCycle st ->
     resolve classes fuel (TClass c) st = inl StackOverflow) /\
  (forall d st i st', uncached classes onCycle st ->
     resolve classes fuel (TClass d) st = inr (i, st') ->
     uncached classes onCycle st').
Proof.
  induction fuel as [|fuel [IHfail IHkeep]].
  - split; [reflexivity|discriminate].
  - assert (Hfail : forall c st, onCycle c -> uncached classes onCycle st ->
              resolve classes (S fuel) (TClass c) st = inl StackOverflow).
    { intros c st Hc Hst. rewrite resolve_unfold. cbv zeta.
      cbn [tokenScope serviceToken]. rewrite (Hst c Hc).
      destruct (Hnext c Hc) as (d & Hd & Hin).
      destruct (resolveDependencies_cycle fuel IHfail IHkeep
                  (paramtypes (classes c)) st Hst) as [_ Hdeps].
      rewrite (Hdeps d Hd Hin).
      now destruct (is_singleton (scope (classes c))). }
    split; [exact Hfail|].
    intros d st i st' Hst Hr.
    destruct (if is_singleton (tokenScope classes (TClass d))
              then singletons st !! serviceToken classes (TClass d)
              else None) as [cached|] eqn:Hcache.
    { rewrite resolve_unfold in Hr. cbv zeta in Hr. rewrite Hcache in Hr.
      inversion Hr; subst. exact Hst. }
    destruct (resolve_miss_inv classes _ _ _ _ _ Hr Hcache)
      as (sc & deps & s1 & Hsc & Hdeps & -> & ->).
    injection Hsc as <-.
    destruct (resolveDependencies_cycle fuel IHfail IHkeep
                (paramtypes (classes d)) st Hst) as [Hkeep _].
    pose proof (Hkeep _ _ Hdeps) as Hs1.
    intros c Hc. unfold cacheSingleton.
    destruct (is_singleton (tokenScope classes (TClass d)));
      cbn [singletons]; [|apply Hs1, Hc].
    rewrite lookup_insert_ne; [apply Hs1, Hc|].
    cbn [serviceToken]. intros Hname.
    pose proof (Hnames c d Hc Hname) as Hd.
    rewrite (Hfail d st Hd Hst) in Hr. discriminate.
Qed.

End Cycles.

(** X9.  Circular constructor dependencies are not detected: when every
    class of a set has a constructor parameter in the set, no other class
    shares a name with the set, and none of its classes is cached,
    resolving any of them recurses without end (the model runs out of
    any fuel), whatever their scopes. *)
Theorem circular_dependencies_never_resolve classes
    (onCycle : ClassId -> Prop) st :
  (forall c, onCycle c ->
     exists d, onCycle d /\ In (PClass d) (paramtypes (classes c))) ->
  (forall c d, onCycle c -> name (classes d) = name (classes c) ->
     onCycle d) ->
  (forall c, onCycle c -> singletons st !! name (classes c) = None) ->
  forall fuel c, onCycle c ->
    resolve classes fuel (TClass c) st = inl StackOverflow.
Proof.
  intros Hnext Hnames Hst fuel c Hc.
  apply (resolve_cycle classes onCycle Hnext Hnames fuel); assumption.
Qed.

Lemma circular_dependencies_never_resolve_witness :
  resolve circular 64 (TClass 0) empty = inl StackOverflow.
Proof.
  apply (circular_dependencies_never_resolve circular (fun c => c < 2) empty).
  - intros [|[|c]] Hc; [exists 1|exists 0|lia]; (split; [lia|]);
      simpl; auto.
  - intros [|[|c]] [|[|d]] Hc Hn; simpl in *; try lia; discriminate.
  - intros c _. apply lookup_empty.
  - lia.
Defined.

Lemma builtBefore_mono bound bound' arguments :
  bound <= bound' -> builtBefore bound arguments ->
  builtBefore bound' arguments.
Proof.
  intros Hle H. unfold builtBefore in *. eapply Forall_impl; [exact H|].
  cbn. intros a Ha o Ho. specialize (Ha o Ho). lia.
Qed.

Lemma wellFormed_allocate st :
  wellFormed st ->
  wellFormed {| services := services st; singletons := singletons st;
                allocated := S (allocated st) |}.
Proof.
  intros [Hb Hi]. split; cbn [singletons allocated].
  - intros k i Hk. destruct (Hb k i Hk). split; [lia|assumption].
  - exact Hi.
Qed.

Lemma wellFormed_cache st key i :
  wellFormed st -> oid i = allocated st -> builtBefore (oid i) (args i) ->
  wellFormed {| services := services st;
                singletons := <[key := i]> (singletons st);
                allocated := S (allocated st) |}.
Proof.
  intros [Hb Hi] Hoid Hargs. split; cbn [singletons allocated].
  - intros k j Hk. destruct (decide (key = k)) as [->|Hne].
    + rewrite lookup_insert_eq in Hk. injection Hk as <-.
      split; [lia|exact Hargs].
    + rewrite lookup_insert_ne in Hk by exact Hne.
      destruct (Hb k j Hk). split; [lia|assumption].
  - intros k1 k2 i1 i2 H1 H2 Heq.
    destruct (decide (key = k1)) as [E1|Hne1];
      destruct (decide (key = k2)) as [E2|Hne2]; [congruence| | |].
    + subst k1. rewrite lookup_insert_eq in H1. injection H1 as <-.
      rewrite lookup_insert_ne in H2 by exact Hne2.
      destruct (Hb k2 i2 H2). lia.
    + subst k2. rewrite lookup_insert_eq in H2. injection H2 as <-.
      rewrite lookup_insert_ne in H1 by exact Hne1.
      destruct (Hb k1 i1 H1). lia.
    + rewrite lookup_insert_ne in H1 by exact Hne1.
      rewrite lookup_insert_ne in H2 by exact Hne2.
      eapply Hi; eassumption.
Qed.

Lemma resolveDependencies_wellFormed classes fuel :
  (forall token st i st', wellFormed st ->
     resolve classes fuel token st = inr (i, st') ->
     wellFormed st' /\ oid i < allocated st' /\
     builtBefore (oid i) (args i)) ->
  forall ps st deps st', wellFormed st ->
    resolveDependencies classes fuel ps st = inr (deps, st') ->
    wellFormed st' /\ builtBefore (allocated st') deps.
Proof.
  intros IH ps. induction ps as [|p ps IHps]; intros st deps st' Hwf Hr.
  - inversion Hr; subst. split; [exact Hwf|constructor].
  - destruct p as [| | |d]; cbn [resolveDependencies] in Hr.
    1-3: destruct (resolveDependencies classes fuel ps st)
           as [e|[ds s2]] eqn:Hrest; [discriminate|];
         inversion Hr; subst;
         destruct (IHps _ _ _ Hwf Hrest) as [Hwf' Hds];
         (split; [exact Hwf'|]); constructor; [discriminate|exact Hds].
    destruct (resolve classes fuel (TClass d) st) as [e|[dep s1]] eqn:Hdep;
      [discriminate|].
    destruct (resolveDependencies classes fuel ps s1)
      as [e|[ds s2]] eqn:Hrest; [discriminate|].
    inversion Hr; subst.
    destruct (IH _ _ _ _ Hwf Hdep) as (Hwf1 & Hdep1 & _).
    destruct (IHps _ _ _ Hwf1 Hrest) as [Hwf' Hds].
    split; [exact Hwf'|]. constructor; [|exact Hds].
    intros o Ho. injection Ho as <-.
    eapply resolveDependencies_extends in Hrest; [|apply resolve_extends].
    destruct Hrest as (_ & Ha & _). lia.
Qed.

Lemma resolve_wellFormed classes fuel : forall token st i st',
  wellFormed st ->
  resolve classes fuel token st = inr (i, st') ->
  wellFormed st' /\ oid i < allocated st' /\ builtBefore (oid i) (args i).
Proof.
  induction fuel as [|fuel IH]; intros token st i st' Hwf Hr;
    [discriminate|].
  destruct (if is_singleton (tokenScope classes token)
            then singletons st !! serviceToken classes token
            else None) as [cached|] eqn:Hcache.
  - rewrite resolve_unfold in Hr. cbv zeta in Hr. rewrite Hcache in Hr.
    inversion Hr; subst.
    destruct (is_singleton _); [|discriminate].
    split; [exact Hwf|]. now apply (proj1 Hwf) in Hcache.
  - destruct (resolve_miss_inv classes _ _ _ _ _ Hr Hcache)
      as (sc & deps & s1 & _ & Hdeps & -> & ->).
    destruct (resolveDependencies_wellFormed classes fuel IH _ _ _ _
                Hwf Hdeps) as [Hwf1 Hbuilt].
    unfold cacheSingleton.
    destruct (is_singleton (tokenScope classes token)); simpl.
    + split; [|split; [lia|exact Hbuilt]].
      apply (wellFormed_cache s1); [exact Hwf1|reflexivity|exact Hbuilt].
    + split; [|split; [lia|exact Hbuilt]]. now apply wellFormed_allocate.
Qed.

Lemma wellFormed_empty : wellFormed empty.
Proof. split; intros *; cbn; rewrite lookup_empty; discriminate. Qed.

Lemma wellFormed_clear st : wellFormed (clear st).
Proof. split; intros *; cbn; rewrite lookup_empty; discriminate. Qed.

(** X10.  An invariant of the container: every cached instance has been
    allocated, was built after the objects passed to its constructor, and
    is cached under one key only.  It holds of the empty container and is
    kept by [register], by [clear] and by every [resolve] that returns;
    the instance [resolve] returns is allocated and was built after its
    constructor arguments. *)
Theorem container_operations_keep_the_cache_well_formed :
  wellFormed empty /\
  (forall key target st,
      wellFormed st -> wellFormed (register key target st)) /\
  (forall st, wellFormed (clear st)) /\
  (forall classes fuel token st i st',
      wellFormed st ->
      resolve classes fuel token st = inr (i, st') ->
      wellFormed st' /\ oid i < allocated st' /\
      builtBefore (oid i) (args i)).
Proof.
  split; [apply wellFormed_empty|].
  split; [intros key target st H; exact H|].
  split; [apply wellFormed_clear|].
  intros classes fuel. apply resolve_wellFormed.
Qed.

Lemma resolveDependencies_ignores_registrations classes fuel registrations :
  (forall c st,
     resolve classes fuel (TClass c) (withServices registrations st)
     = match resolve classes fuel (TClass c) st with
       | inl e => inl e
       | inr (i, st') => inr (i, withServices registrations st')
       end) ->
  forall ps st,
    resolveDependencies classes fuel ps (withServices registrations st)
    = match resolveDependencies classes fuel ps st with
      | inl e => inl e
      | inr (deps, st') => inr (deps, withServices registrations st')
      end.
Proof.
  intros IH ps. induction ps as [|p ps IHps]; intros st; [reflexivity|].
  destruct p as [| | |d]; cbn [resolveDependencies].
  1-3: rewrite IHps;
       now destruct (resolveDependencies classes fuel ps st) as [e|[ds s2]].
  rewrite IH.
  destruct (resolve classes fuel (TClass d) st) as [e|[dep s1]];
    [reflexivity|].
  rewrite IHps.
  now destruct (resolveDependencies classes fuel ps s1) as [e|[ds s2]].
Qed.

(** X11.  Resolving a constructor never reads the registrations: with
    any other table of registered services the call ends the same way,
    returns the same instance, and leaves the same cache and the same
    allocations.  (The providers a module registers matter to string
    tokens only.) *)
Theorem resolve_by_constructor_ignores_registrations classes registrations
    fuel : forall c st,
  resolve classes fuel (TClass c) (withServices registrations st)
  = match resolve classes fuel (TClass c) st with
    | inl e => inl e
    | inr (i, st') => inr (i, withServices registrations st')
    end.
Proof.
  induction fuel as [|fuel IH]; intros c st; [reflexivity|].
  rewrite !resolve_unfold. cbv zeta.
  cbn [tokenScope serviceToken withServices singletons].
  destruct (if is_singleton (scope (classes c))
            then singletons st !! name (classes c) else None);
    [reflexivity|].
  change {| services := registrations; singletons := singletons st;
            allocated := allocated st |}
    with (withServices registrations st).
  rewrite (resolveDependencies_ignores_registrations classes fuel
             registrations IH).
  destruct (resolveDependencies classes fuel (paramtypes (classes c)) st)
    as [e|[deps s1]]; [reflexivity|].
  cbn [construct withServices allocated singletons services].
  unfold cacheSingleton.
  now destruct (is_singleton (scope (classes c))).
Qed.

(** Every entry of the cache after a call was there before, or holds an
    object allocated during the call. *)
Lemma resolveDependencies_cache_old_or_fresh classes fuel :
  (forall token st i st',
     resolve classes fuel token st = inr (i, st') ->
     forall k j, singletons st' !! k = Some j ->
       singletons st !! k = Some j \/ allocated st <= oid j) ->
  forall ps st deps st',
    resolveDependencies classes fuel ps st = inr (deps, st') ->
    forall k j, singletons st' !! k = Some j ->
      singletons st !! k = Some j \/ allocated st <= oid j.
Proof.
  intros IH ps. induction ps as [|p ps IHps]; intros st deps st' Hr k j Hk.
  - inversion Hr; subst. now left.
  - destruct p as [| | |d]; cbn [resolveDependencies] in Hr.
    1-3: destruct (resolveDependencies classes fuel ps st)
           as [e|[ds s2]] eqn:Hrest; [discriminate|];
         inversion Hr; subst; exact (IHps _ _ _ Hrest k j Hk).
    destruct (resolve classes fuel (TClass d) st) as [e|[dep s1]] eqn:Hdep;
      [discriminate|].
    destruct (resolveDependencies classes fuel ps s1)
      as [e|[ds s2]] eqn:Hrest; [discriminate|].
    inversion Hr; subst.
    destruct (IHps _ _ _ Hrest k j Hk) as [Hold|Hfresh].
    + exact (IH _ _ _ _ Hdep k j Hold).
    + right. apply resolve_extends in Hdep. destruct Hdep as (_ & Ha & _).
      lia.
Qed.

Lemma resolve_cache_old_or_fresh classes fuel : forall token st i st',
  resolve classes fuel token st = inr (i, st') ->
  forall k j, singletons st' !! k = Some j ->
    singletons st !! k = Some j \/ allocated st <= oid j.
Proof.
  induction fuel as [|fuel IH]; intros token st i st' Hr k j Hk;
    [discriminate|].
  destruct (if is_singleton (tokenScope classes token)
            then singletons st !! serviceToken classes token
            else None) as [cached|] eqn:Hcache.
  - rewrite resolve_unfold in Hr. cbv zeta in Hr. rewrite Hcache in Hr.
    inversion Hr; subst. now left.
  - destruct (resolve_miss_inv classes _ _ _ _ _ Hr Hcache)
      as (sc & deps & s1 & _ & Hdeps & -> & ->).
    pose proof (resolveDependencies_cache_old_or_fresh classes fuel IH
                  _ _ _ _ Hdeps) as Hof.
    assert (Ha : allocated st <= allocated s1).
    { eapply resolveDependencies_extends in Hdeps; [|apply resolve_extends].
      now destruct Hdeps as (_ & Ha & _). }
    unfold cacheSingleton in Hk.
    destruct (is_singleton (tokenScope classes token)); cbn in Hk.
    + destruct (decide (serviceToken classes token = k)) as [E|Hne].
      * subst k. rewrite lookup_insert_eq in Hk. injection Hk as <-.
        right. exact Ha.
      * rewrite lookup_insert_ne in Hk by exact Hne. exact (Hof k j Hk).
    + exact (Hof k j Hk).
Qed.

(** C7 (amended).  After a [resolve] call that returned: if the token is
    a string, or a constructor whose ["scope"] metadata is ["singleton"],
    every later call returns the identical instance and leaves the
    container unchanged.  Otherwise the token is a constructor whose
    ["scope"] metadata is ["transient"] or missing, and each of two calls
    resolves the constructor's dependencies and returns exactly what
    [new] made of them: an object of a new identity, different in the
    two calls, and a cache that is the one the resolution of the
    dependencies left (singleton dependencies are cached, the instance
    is not).  When the cache held only objects the container built,
    neither instance is in the cache afterwards.  [Injectable] without a
    scope option records ["singleton"]. *)
Theorem resolve_twice_by_scope classes fuel token st i1 st1 :
  resolve classes fuel token st = inr (i1, st1) ->
  (tokenScope classes token = Some Singleton ->
     forall fuel', resolve classes (S fuel') token st1 = inr (i1, st1)) /\
  (tokenScope classes token <> Some Singleton ->
     exists c dependencies1 s1 i2 st2 dependencies2 s2,
       token = TClass c /\
       resolveDependencies classes (pred fuel) (paramtypes (classes c)) st
       = inr (dependencies1, s1) /\
       (i1, st1) = construct c dependencies1 s1 /\
       resolve classes fuel token st1 = inr (i2, st2) /\
       resolveDependencies classes (pred fuel) (paramtypes (classes c)) st1
       = inr (dependencies2, s2) /\
       (i2, st2) = construct c dependencies2 s2 /\
       oid i2 <> oid i1 /\
       (wellFormed st ->
        forall k,
          singletons st1 !! k <> Some i1 /\
          singletons st2 !! k <> Some i1 /\
          singletons st2 !! k <> Some i2)) /\
  (forall s, tokenScope classes (TString s) = Some Singleton) /\
  (forall target, scope (Injectable None target) = Some Singleton).
Proof.
  intros Hr. repeat split.
  - intros Hsc fuel'. apply resolve_cached_hit.
    + rewrite Hsc. reflexivity.
    + eapply resolve_singleton_cached; [rewrite Hsc; reflexivity|].
      exact Hr.
  - intros Hsc.
    assert (Hns : is_singleton (tokenScope classes token) = false).
    { destruct (tokenScope classes token) as [[|]|]; try reflexivity.
      contradiction. }
    destruct token as [s|c]; [now contradiction Hsc|].
    destruct (resolve_returns_again classes fuel (TClass c) st i1 st1 st1 Hr)
      as (i2 & st2 & Hr2).
    { eapply resolve_extends; eassumption. }
    { intros k Hk. exact Hk. }
    destruct fuel as [|fuel]; [discriminate|].
    assert (Hmiss : forall s0,
               (if is_singleton (tokenScope classes (TClass c))
                then singletons s0 !! serviceToken classes (TClass c)
                else None) = None) by (intros s0; now rewrite Hns).
    destruct (resolve_miss_inv classes _ _ _ _ _ Hr (Hmiss st))
      as (c1 & deps1 & s1 & Hc1 & Hdeps1 & Hi1 & Hst1).
    destruct (resolve_miss_inv classes _ _ _ _ _ Hr2 (Hmiss st1))
      as (c2 & deps2 & s2 & Hc2 & Hdeps2 & Hi2 & Hst2).
    injection Hc1 as <-. injection Hc2 as <-.
    unfold cacheSingleton in Hst1, Hst2. rewrite Hns in Hst1, Hst2.
    assert (Hgrow : allocated st1 <= allocated s2).
    { eapply resolveDependencies_extends in Hdeps2; [|apply resolve_extends].
      now destruct Hdeps2 as (_ & Ha & _). }
    exists c, deps1, s1, i2, st2, deps2, s2.
    split; [reflexivity|]. split; [exact Hdeps1|].
    split; [unfold construct; congruence|].
    split; [exact Hr2|]. split; [exact Hdeps2|].
    split; [unfold construct; congruence|].
    assert (Hoid1 : oid i1 = allocated s1) by (subst i1; reflexivity).
    assert (Hoid2 : oid i2 = allocated s2) by (subst i2; reflexivity).
    assert (Hal1 : allocated st1 = S (allocated s1))
      by (subst st1; reflexivity).
    split; [lia|].
    intros Hwf k.
    assert (Hwf1 : wellFormed s1).
    { eapply resolveDependencies_wellFormed; [|exact Hwf|exact Hdeps1].
      apply resolve_wellFormed. }
    assert (Hwfst1 : wellFormed st1).
    { subst st1. now apply wellFormed_allocate. }
    assert (Hwf2 : wellFormed s2).
    { eapply resolveDependencies_wellFormed; [|exact Hwfst1|exact Hdeps2].
      apply resolve_wellFormed. }
    assert (Hs1 : singletons st1 = singletons s1) by (subst st1; reflexivity).
    assert (Hs2 : singletons st2 = singletons s2) by (subst st2; reflexivity).
    rewrite Hs2, Hs1.
    assert (Hold : forall j, singletons s1 !! k = Some j -> oid j < oid i1).
    { intros j Hj. destruct (proj1 Hwf1 k j Hj). lia. }
    repeat split.
    + intros Hk. specialize (Hold _ Hk). lia.
    + intros Hk.
      destruct (resolveDependencies_cache_old_or_fresh classes fuel
                  (resolve_cache_old_or_fresh classes fuel)
                  _ _ _ _ Hdeps2 k i1 Hk) as [Hin|Hfresh].
      * rewrite Hs1 in Hin. specialize (Hold _ Hin). lia.
      * lia.
    + intros Hk. destruct (proj1 Hwf2 k i2 Hk). lia.
Qed.

Lemma resolve_twice_by_scope_witness :
  exists i1 st1,
    resolve demo 2 (TClass 1) empty = inr (i1, st1) /\
    forall fuel', resolve demo (S fuel') (TClass 1) st1 = inr (i1, st1).
Proof.
  destruct (resolve demo 2 (TClass 1) empty) as [e|[i1 st1]] eqn:Hrun;
    [vm_compute in Hrun; discriminate|].
  exists i1, st1. split; [reflexivity|].
  apply (resolve_twice_by_scope demo 2 (TClass 1) empty i1 st1 Hrun).
  reflexivity.
Defined.

(** A transient class with a singleton dependency: the dependency is
    cached by the first call, the transient instances are not. *)
Example transient_with_singleton_dependency :
  exists i1 st1 i2 st2,
    resolve demo 3 (TClass 2) empty = inr (i1, st1) /\
    resolve demo 3 (TClass 2) st1 = inr (i2, st2) /\
    oid i1 <> oid i2 /\
    args i1 = args i2 /\
    is_Some (singletons st1 !! "CachedService") /\
    singletons st1 !! "TransientService" = None /\
    singletons st2 = singletons st1.
Proof. do 4 eexists. repeat split; try reflexivity; [discriminate|eauto]. Qed.

End ContainerLaws.

(** ** Guards, filters, pipes and parameters *)

Module GuardsLaws.
Import Js Async AsyncFacts Guards Scenarios GuardsFacts GuardOutcomes.
Local Open Scope async_scope.

Lemma exnMessage_toError e : exnMessage (toError e) <> None.
Proof. now destruct e. Qed.

Lemma hasStatus_toError e : hasStatus (toError e) = hasStatus e.
Proof. now destruct e. Qed.


(** The error of a rejection, when no guard fails with a [status]. *)
Lemma GuardExecutor_canActivate_error guards context : forall w result w',
  Forall (failsWithoutStatus context) guards ->
  GuardExecutor_canActivate guards context w = (Returned result, w') ->
  allowed result = false ->
  exists e, error result = Some e /\ hasStatus e = false /\
            exnMessage e <> None.
Proof.
  induction guards as [|guard rest IH]; intros w result w' Hall Hr Hno.
  - inversion Hr; subst. discriminate.
  - apply Forall_cons in Hall as [Hguard Hall].
    cbn [GuardExecutor_canActivate] in Hr.
    pose proof (checkGuard_cases guard context w) as Hc.
    specialize (Hguard w).
    destruct (canActivate guard context w)
      as [[[[|]|[[|]| |e]]|e] w1];
      erewrite bind_returned in Hr by exact Hc;
      try (eapply IH; eassumption);
      inversion Hr; subst; cbn;
      eexists; (split; [reflexivity|]);
      rewrite ?hasStatus_toError;
      (split; [first [reflexivity|exact Hguard]
              |first [discriminate|apply exnMessage_toError]]).
Qed.

End GuardsLaws.

Module FiltersLaws.
Import Js Async AsyncFacts Guards Filters Scenarios GuardsFacts FiltersFacts.
Local Open Scope async_scope.

(** X16.  The first filter that returns a [Response] answers: when the
    filters before it have produced none, the executor returns that
    response, in the world that filter left; the filters after it are
    not called, and neither is the default filter. *)
Theorem first_responding_filter_wins exception before filter after host
    w w1 response w2 :
  tryFilters exception before host w = (Returned None, w1) ->
  catch filter exception host w1 = (Returned (CaughtResponse response), w2) ->
  ExceptionFilterExecutor_execute exception (before ++ filter :: after) host w
  = (Returned response, w2).
Proof.
  intros Hbefore Hfilter. apply ExceptionFilterExecutor_execute_found.
  rewrite tryFilters_app, Hbefore, tryFilters_cons, Hfilter. reflexivity.
Qed.

Lemma first_responding_filter_wins_witness :
  ExceptionFilterExecutor_execute (Error "boom")
    ([silentFilter "audit"] ++
     respondingFilter "conflict" 409 :: [respondingFilter "teapot" 418])
    someHost world0
  = (Returned (textResponse 409 "conflict"),
     journaled world0 ["audit"; "conflict"]).
Proof.
  apply (first_responding_filter_wins (Error "boom") [silentFilter "audit"]
           (respondingFilter "conflict" 409) [respondingFilter "teapot" 418]
           someHost world0 (journaled world0 ["audit"]));
    reflexivity.
Defined.

(** Resolving the global filters throws what the first failing class
    throws. *)
Lemma getGlobalFilters_failing before : forall create rest failure w,
  (forall w0, exists w1, create w0 = (Threw failure, w1)) ->
  exists w',
    getGlobalFilters (map FilterInstance before ++ FilterClass create :: rest) w
    = (Threw failure, w').
Proof.
  induction before as [|f before IH]; intros create rest failure w Hc.
  - cbn [map app getGlobalFilters]. destruct (Hc w) as [w1 H1].
    exists w1. unfold bind at 1. now rewrite H1.
  - cbn [map app getGlobalFilters]. rewrite bind_ret_l.
    destruct (IH create rest failure w Hc) as [w' H'].
    exists w'. unfold bind at 1. now rewrite H'.
Qed.

End FiltersLaws.

Module PipesLaws.
Import Js Async AsyncFacts Pipes PipesFacts.
Local Open Scope async_scope.

(** X17.  A pipe that throws ends the chain: the pipes before it have
    run in order, the exception is written to the console once and
    thrown on unchanged, and the pipes after it are not run. *)
Theorem executePipes_stops_at_first_failure value before pipe after
    metadata w v1 w1 e w2 :
  executePipes value before metadata w = (Returned v1, w1) ->
  transform pipe v1 metadata w1 = (Threw e, w2) ->
  executePipes value (before ++ pipe :: after) metadata w
  = (Threw e, withLog w2 "管道执行错误:" e).
Proof.
  intros Hbefore Hpipe. rewrite executePipes_app.
  erewrite bind_returned by exact Hbefore.
  cbn [executePipes]. unfold bind at 1. unfold tryCatch. rewrite Hpipe.
  reflexivity.
Qed.

Lemma executePipes_stops_at_first_failure_witness :
  executePipes (VString "7")
    ([markerPipe appendToString "!"] ++
     {| transform := fun _ _ => throw (HttpException "bad" 400) |}
     :: [markerPipe appendToString "?"])
    {| argType := QUERY; metatype := None; data := None |} world0
  = (Threw (HttpException "bad" 400),
     withLog world0 "管道执行错误:" (HttpException "bad" 400)).
Proof.
  apply (executePipes_stops_at_first_failure (VString "7")
           [markerPipe appendToString "!"] _
           [markerPipe appendToString "?"] _ world0 (VString "7!") world0);
    reflexivity.
Defined.

End PipesLaws.

Module ParamsLaws.
Import Js Async AsyncFacts Pipes Params ParamsFacts Routes.
Local Open Scope async_scope.

(** X18.  Reading the request body never throws and never yields
    [undefined]: a body that cannot be parsed is logged and read as
    [null]; no user code runs; and for a method other than POST, PUT and
    PATCH the body is [null] without anything being read or logged. *)
Theorem parseBody_never_throws request w :
  exists body w',
    parseBody request w = (Returned body, w') /\
    isUndefined body = false /\
    journal w' = journal w /\
    (existsb (String.eqb (method request)) ["POST"; "PUT"; "PATCH"] = false ->
     body = VNull /\ w' = w).
Proof.
  unfold parseBody.
  destruct (existsb (String.eqb (method request)) ["POST"; "PUT"; "PATCH"]).
  - unfold tryCatch.
    destruct (includes "application/json" _).
    + destruct (jsonBody request) as [rejection|parsed]; cbn;
        eexists _, _; repeat split; discriminate.
    + destruct (includes "application/x-www-form-urlencoded" _).
      * destruct (formBody request) as [rejection|entries]; cbn;
          eexists _, _; repeat split; discriminate.
      * cbn. eexists _, _; repeat split; discriminate.
  - cbn. eexists _, _; repeat split.
Qed.

(** With no slot decorated, the closing loop puts the request in every
    declared position. *)
Lemma fillUndecorated_replicate request count :
  fillUndecorated count request (replicate count VUndefined)
  = replicate count (VRequest request).
Proof.
  destruct (fillUndecorated_lookup request count (replicate count VUndefined))
    as [Hlen Hlookup].
  { now rewrite length_replicate. }
  apply list_eq. intros i. rewrite Hlookup.
  destruct (Nat.ltb i count) eqn:Hi.
  - apply Nat.ltb_lt in Hi. unfold slot.
    rewrite !lookup_replicate_2 by exact Hi. reflexivity.
  - apply Nat.ltb_ge in Hi.
    rewrite !lookup_ge_None_2 by (rewrite length_replicate; lia).
    reflexivity.
Qed.






End ParamsLaws.

(** ** Interceptor chains *)

Module InterceptorsLaws.
Import Js Async AsyncFacts Guards Interceptors InterceptorsFacts.
Import BuiltinInterceptors.
Local Open Scope async_scope.

Section Chain.
Context {T : Type} (undefined : T).

(** What [handle()] of a chain of tracing interceptors settles to
    around an [async] handler. *)
Lemma handle_tracing_chain_outcome names : forall context (body : M T) w,
  handle (buildChain undefined (map tracing names) context
            (AsyncHandler body)) w =
  match body (journaled w (map (fun n => n ++ "-before")%string names)) with
  | (Returned result, w1) =>
      (Returned (fromPromise (Returned result)),
       journaled w1 (rev (map (fun n => n ++ "-after")%string names)))
  | (Threw e, w1) => (Returned (fromPromise (Threw e)), w1)
  end.
Proof.
  induction names as [|n names IH]; intros context body w.
  - unfold buildChain. cbn. rewrite journaled_nil.
    destruct (body w) as [[result|e] w1];
      [now rewrite journaled_nil|reflexivity].
  - cbn [map]. rewrite buildChain_cons.
    unfold wrap. cbn [handle CallHandlerImpl].
    cbn [intercept tracing].
    rewrite !bind_assoc. unfold bind at 1. rewrite note_journaled.
    rewrite bind_assoc. unfold bind at 1. rewrite IH.
    cbn [map rev]. rewrite journaled_app. cbn [app].
    destruct (body _) as [[result|e] w1].
    + rewrite bind_ret_l. unfold observableToPromise, tap, fromPromise.
      cbn [immediate subscribed].
      rewrite bind_assoc, bind_ret_l, bind_assoc.
      unfold bind at 1. rewrite note_journaled.
      rewrite !bind_ret_l. unfold ret.
      rewrite !journaled_app. reflexivity.
    + rewrite bind_ret_l. unfold observableToPromise, tap, fromPromise.
      cbn [immediate subscribed]. reflexivity.
Qed.

Lemma execute_chain x xs context (handler : HandlerFn) w :
  InterceptorExecutor_execute undefined (x :: xs) context handler w =
  (observable <- handle (buildChain undefined (x :: xs) context handler) ;;
   observableToPromise undefined observable) w.
Proof. reflexivity. Qed.

Lemma execute_tracing_outcome names context (body : M T) w :
  InterceptorExecutor_execute undefined (map tracing names) context
    (AsyncHandler body) w =
  match body (journaled w (map (fun n => n ++ "-before")%string names)) with
  | (Returned result, w1) =>
      (Returned result,
       journaled w1 (rev (map (fun n => n ++ "-after")%string names)))
  | (Threw e, w1) => (Threw e, w1)
  end.
Proof.
  destruct names as [|n names].
  - cbn. rewrite journaled_nil.
    destruct (body w) as [[result|e] w1];
      [now rewrite journaled_nil|reflexivity].
  - cbn [map]. rewrite execute_chain.
    unfold bind. rewrite (handle_tracing_chain_outcome (n :: names)).
    cbn [map]. destruct (body _) as [[result|e] w1]; reflexivity.
Qed.

(** What the innermost interceptor's handler settles to around a handler
    that is not [async]: the observable of such a handler notifies from
    inside [subscribe]. *)
Lemma innermost_around_sync_handler n context (body : M T) w :
  (observable <- intercept (tracing n) context
                   (CallHandlerImpl (SyncHandler body)) ;;
   observableToPromise undefined observable) w =
  match body (journaled w [n ++ "-before"]%string) with
  | (Returned _, w1) =>
      (Threw uninitializedSubscription,
       journaled w1 [n ++ "-after"]%string)
  | (Threw _, w1) => (Threw uninitializedSubscription, w1)
  end.
Proof.
  cbn [intercept tracing]. rewrite !bind_assoc.
  unfold bind at 1. rewrite note_journaled.
  rewrite bind_assoc. unfold bind at 1. cbn [handle CallHandlerImpl].
  destruct (body _) as [[result|e] w1]; reflexivity.
Qed.

Lemma execute_tracing_sync names n context (body : M T) w :
  InterceptorExecutor_execute undefined (map tracing (names ++ [n])) context
    (SyncHandler body) w =
  match body (journaled w (map (fun n => n ++ "-before")%string
                             (names ++ [n]))) with
  | (Returned _, w1) =>
      (Threw uninitializedSubscription,
       journaled w1 [n ++ "-after"]%string)
  | (Threw _, w1) => (Threw uninitializedSubscription, w1)
  end.
Proof.
  set (inner := observable <- intercept (tracing n) context
                              (CallHandlerImpl (SyncHandler body)) ;;
                observableToPromise undefined observable).
  assert (Hchain :
    buildChain undefined (map tracing (names ++ [n])) context
      (SyncHandler body)
    = buildChain undefined (map tracing names) context (AsyncHandler inner)).
  { rewrite !buildChain_fold_right, map_app, fold_right_app. reflexivity. }
  assert (Hexec :
    InterceptorExecutor_execute undefined (map tracing (names ++ [n]))
      context (SyncHandler body) w
    = InterceptorExecutor_execute undefined (map tracing names) context
        (AsyncHandler inner) w).
  { destruct names as [|m names].
    - cbn [app map]. rewrite execute_chain.
      unfold buildChain. cbn [rev app fold_left wrap handle CallHandlerImpl].
      fold inner. cbn [InterceptorExecutor_execute length Nat.eqb callHandler].
      unfold bind.
      destruct (inner w) as [[result|e] w1]; reflexivity.
    - cbn [app map] in Hchain |- *. rewrite !execute_chain.
      unfold bind. rewrite Hchain. reflexivity. }
  rewrite Hexec, execute_tracing_outcome.
  unfold inner. rewrite innermost_around_sync_handler.
  rewrite journaled_app, map_app. cbn [map].
  destruct (body _) as [[result|e] w1]; reflexivity.
Qed.

End Chain.

(** X20.  Around an [async] handler, a chain of interceptors that act
    before [next.handle()] and on the value passed back runs every
    "before" in declaration order, then the handler, then every "after"
    in reverse order, and returns the handler's value; when the handler
    throws, the exception comes out of the chain and no "after" runs. *)
Theorem tracing_chain_around_async_handler {T} (undefined : T) names context
    (body : M T) w :
  InterceptorExecutor_execute undefined (map tracing names) context
    (AsyncHandler body) w =
  match body (journaled w (map (fun n => n ++ "-before")%string names)) with
  | (Returned result, w1) =>
      (Returned result,
       journaled w1 (rev (map (fun n => n ++ "-after")%string names)))
  | (Threw e, w1) => (Threw e, w1)
  end.
Proof. apply execute_tracing_outcome. Qed.

(** X21.  Around a handler that is not [async] the same chain always
    rejects: the handler's result is wrapped by [SimpleObservable.of],
    which notifies inside [subscribe], where the callbacks of
    [observableToPromise] read [subscription] before it is initialised.
    Every "before" and the handler have run, and of the "after" actions
    only the innermost, when the handler returned. *)
Theorem tracing_chain_around_sync_handler {T} (undefined : T) names n
    context (body : M T) w :
  InterceptorExecutor_execute undefined (map tracing (names ++ [n])) context
    (SyncHandler body) w =
  match body (journaled w (map (fun n => n ++ "-before")%string
                             (names ++ [n]))) with
  | (Returned _, w1) =>
      (Threw uninitializedSubscription,
       journaled w1 [n ++ "-after"]%string)
  | (Threw _, w1) => (Threw uninitializedSubscription, w1)
  end.
Proof. apply execute_tracing_sync. Qed.

Section TransformOnce.
Variable url : Request -> string.
Variable undefined : Json.
Variable context : ExecutionContext.

Lemma transformData_returns data w :
  exists out,
    transformData url context data w = (Returned out, w) /\
    hasSuccess out = true.
Proof.
  unfold transformData. destruct (hasSuccess data) eqn:Hs.
  - exists data. split; [reflexivity|exact Hs].
  - eexists. split; [reflexivity|reflexivity].
Qed.

Lemma transformData_idempotent data w out w' :
  transformData url context data w = (Returned out, w') ->
  transformData url context out w' = (Returned out, w').
Proof.
  intros H. destruct (transformData_returns data w) as (out' & H' & Hs).
  rewrite H' in H. inversion H; subst.
  unfold transformData. now rewrite Hs.
Qed.

Lemma wrap_TransformInterceptor next outcome w w' :
  handle next w = (Returned (fromPromise outcome), w') ->
  handle (wrap undefined context next (TransformInterceptor url)) w =
  match outcome with
  | Returned data =>
      let '(transformed, w2) := transformData url context data w' in
      (Returned (fromPromise transformed), w2)
  | Threw e => (Returned (fromPromise (Threw e)), w')
  end.
Proof.
  intros Hnext. unfold wrap. cbn [handle CallHandlerImpl].
  cbn [intercept TransformInterceptor].
  rewrite bind_assoc. unfold bind at 1. rewrite Hnext.
  rewrite bind_ret_l. unfold observableToPromise.
  cbn [immediate subscribed fromPromise].
  destruct outcome as [data|e].
  - rewrite bind_assoc, bind_ret_l, bind_assoc.
    destruct (transformData_returns data w') as (out & Hout & _).
    unfold bind at 1. rewrite Hout. rewrite !bind_ret_l. reflexivity.
  - reflexivity.
Qed.

Lemma handle_TransformInterceptor_chain k : forall (body : M Json) w,
  handle (buildChain undefined (replicate (S k) (TransformInterceptor url))
            context (AsyncHandler body)) w =
  let '(outcome, w') := transformedOutcome url context body w in
  (Returned (fromPromise outcome), w').
Proof.
  induction k as [|k IH]; intros body w.
  - cbn [replicate]. rewrite buildChain_cons.
    rewrite (wrap_TransformInterceptor _
               (fst (body w)) w (snd (body w))).
    + unfold transformedOutcome.
      destruct (body w) as [[data|e] w1]; cbn [fst snd]; [|reflexivity].
      now destruct (transformData url context data w1).
    + unfold buildChain. cbn. now destruct (body w).
  - change (replicate (S (S k)) (TransformInterceptor url))
      with (TransformInterceptor url
              :: replicate (S k) (TransformInterceptor url)).
    rewrite buildChain_cons.
    rewrite (wrap_TransformInterceptor _
               (fst (transformedOutcome url context body w)) w
               (snd (transformedOutcome url context body w))).
    + unfold transformedOutcome.
      destruct (body w) as [[data|e] w1]; cbn [fst snd]; [|reflexivity].
      destruct (transformData url context data w1) as [[out|e] w2] eqn:Ht;
        cbn [fst snd]; [|reflexivity].
      now rewrite (transformData_idempotent _ _ _ _ Ht).
    + rewrite IH. now destruct (transformedOutcome url context body w).
Qed.

End TransformOnce.

(** X22.  However many times [TransformInterceptor] is stacked around an
    [async] handler, the handler's value is wrapped once: the chain
    returns what one pass of the interceptor's callback makes of it, and
    that always has a ["success"] field, a value that already has one
    being passed through unchanged.  An exception of the handler comes
    out unchanged. *)
Theorem TransformInterceptor_wraps_once url undefined k context
    (body : M Json) w :
  InterceptorExecutor_execute undefined
    (replicate (S k) (TransformInterceptor url)) context (AsyncHandler body) w
  = match body w with
    | (Returned data, w1) => transformData url context data w1
    | (Threw e, w1) => (Threw e, w1)
    end /\
  forall data w1, exists out,
    transformData url context data w1 = (Returned out, w1) /\
    hasSuccess out = true /\
    (hasSuccess data = true -> out = data).
Proof.
  split.
  - cbn [replicate]. rewrite execute_chain.
    unfold bind.
    rewrite (handle_TransformInterceptor_chain url undefined context k).
    unfold transformedOutcome.
    destruct (body w) as [[data|e] w1]; [|reflexivity].
    destruct (transformData_returns url context data w1) as (out & -> & _).
    reflexivity.
  - intros data w1.
    destruct (transformData_returns url context data w1) as (out & H & Hs).
    exists out. repeat split; try assumption.
    intros Hd. unfold transformData in H. rewrite Hd in H.
    now inversion H.
Qed.

End InterceptorsLaws.

(** ** The built-in pipes *)

Module BuiltinPipesLaws.
Import Js Async AsyncFacts Pipes PipesFacts Filters FiltersFacts BuiltinPipes.
Local Open Scope async_scope.


(** X23.  When validation of a [@Body] parameter of class type reports
    errors and the pipe has no [exceptionFactory], the pipe throws an
    [Error] whose message joins the flattened constraint messages and
    which has no [status]: left to the default exception filter it is
    answered with status 500 (the option [errorHttpStatusCode] is never
    read). *)
Theorem ValidationPipe_failure_is_an_error_without_status
    plainToInstance validate value metadata declared errors w w1 :
  metatype metadata = Some declared ->
  toValidate declared = true ->
  argType metadata = BODY ->
  validate (plainToInstance declared value) w = (Returned errors, w1) ->
  errors <> [] ->
  ValidationPipe_transform plainToInstance validate None value metadata w
  = (Threw (Error (JsString.join ", " (flattenValidationErrors errors ""))),
     w1) /\
  forall host w2, exists response w3,
    ExceptionFilterExecutor_execute
      (Error (JsString.join ", " (flattenValidationErrors errors "")))
      [] host w2 = (Returned response, w3) /\
    Js.status response = 500%Z.
Proof.
  intros Hmeta Hvalidate Hbody Herrors Hnonempty. split.
  - unfold ValidationPipe_transform. rewrite Hmeta, Hvalidate, Hbody.
    cbn [negb]. unfold bind. rewrite Herrors.
    destruct errors as [|error errors]; [contradiction|]. reflexivity.
  - intros host w2.
    rewrite (ExceptionFilterExecutor_execute_default _ [] host w2 w2)
      by reflexivity.
    destruct (DefaultExceptionFilter_catch_returns
                (Error (JsString.join ", "
                          (flattenValidationErrors errors ""))) host w2
                eq_refl)
      as (response & Hr & Hs & _).
    eauto.
Qed.

Lemma ValidationPipe_failure_is_an_error_without_status_witness :
  ValidationPipe_transform (fun _ v => v)
    (fun _ => ret [ValidationErrorOf "email" (Some ["must be an email"]) []])
    None (VJson (JObject []))
    {| argType := BODY; metatype := Some "CreateUserDto"; data := None |}
    world0
  = (Threw (Error "email: must be an email"), world0) /\
  forall host w2, exists response w3,
    ExceptionFilterExecutor_execute (Error "email: must be an email")
      [] host w2 = (Returned response, w3) /\
    Js.status response = 500%Z.
Proof.
  apply (ValidationPipe_failure_is_an_error_without_status
           (fun _ v => v)
           (fun _ => ret [ValidationErrorOf "email"
                            (Some ["must be an email"]) []])
           (VJson (JObject []))
           {| argType := BODY; metatype := Some "CreateUserDto";
              data := None |}
           "CreateUserDto"
           [ValidationErrorOf "email" (Some ["must be an email"]) []]
           world0 world0); try reflexivity.
  discriminate.
Defined.



(** X25.  [ParseIntPipe] changes nothing in the world.  What it returns
    is either 0, for an empty input under [optional] (whatever [min] and
    [max] say), or the integer read from the input, which then lies
    within [min] and [max] where they are given.  What it throws, without
    an [exceptionFactory], is an [HttpException] of status 400. *)
Theorem ParseIntPipe_result_is_within_bounds parseInt showNumber options
    value metadata w :
  match ParseIntPipe_transform parseInt showNumber options value metadata w
  with
  | (Returned out, w') =>
      w' = w /\
      (optional options = true /\ isEmptyInput value = true /\
       out = VJson (JNumber 0)
       \/
       exists n, parseInt value = Some n /\ out = VJson (JNumber n) /\
                 (forall least, min options = Some least -> (least <= n)%Z) /\
                 (forall most, max options = Some most -> (n <= most)%Z))
  | (Threw e, w') =>
      w' = w /\
      (intExceptionFactory options = None ->
       exists message, e = HttpException message 400)
  end.
Proof.
  unfold ParseIntPipe_transform.
  destruct (optional options && isEmptyInput value) eqn:Hopt.
  { apply andb_true_iff in Hopt as [Ho He]. cbn. auto. }
  destruct (parseInt value) as [n|] eqn:Hparse.
  2:{ unfold throwError. destruct (intExceptionFactory options);
      cbn; split; try reflexivity; [discriminate|eauto]. }
  unfold bind, throwError.
  destruct (min options) as [least|] eqn:Hmin.
  - destruct (Z.ltb n least) eqn:Hlt.
    + destruct (intExceptionFactory options);
        cbn; split; try reflexivity; [discriminate|eauto].
    + cbn. destruct (max options) as [most|] eqn:Hmax.
      * destruct (Z.ltb most n) eqn:Hgt.
        -- destruct (intExceptionFactory options);
             cbn; split; try reflexivity; [discriminate|eauto].
        -- cbn. split; [reflexivity|]. right. exists n.
           repeat split; intros ? [= <-]; lia.
      * cbn. split; [reflexivity|]. right. exists n.
        repeat split; [intros ? [= <-]; lia|discriminate].
  - cbn. destruct (max options) as [most|] eqn:Hmax.
    + destruct (Z.ltb most n) eqn:Hgt.
      * destruct (intExceptionFactory options);
          cbn; split; try reflexivity; [discriminate|eauto].
      * cbn. split; [reflexivity|]. right. exists n.
        repeat split; [discriminate|intros ? [= <-]; lia].
    + cbn. split; [reflexivity|]. right. exists n.
      repeat split; discriminate.
Qed.

End BuiltinPipesLaws.

(** ** The route table and the handler closure *)

Module DispatchLaws.
Import Js Async AsyncFacts Guards Filters Pipes Params Interceptors Dispatch.
Import Scenarios GuardsFacts FiltersFacts InterceptorsFacts DispatchFacts.
Import GuardOutcomes Routes GuardsLaws FiltersLaws ParamsLaws RouterLaws.
Local Open Scope async_scope.

(** X4.  [findMatchingRoute] answers with the first route, in
    registration order, whose method equals the request's and whose path
    matches, together with the table of that match: every route before
    it differs in the method or does not match the path.  It answers
    [null] exactly when that holds of every route. *)
Theorem findMatchingRoute_first_match routes pathname method :
  match findMatchingRoute routes pathname method with
  | Some (route, params) =>
      exists before after,
        routes = before ++ route :: after /\
        Forall (fun r => routeMethod r <> method \/
                         Router.matchRoute (routePath r) pathname = None)
          before /\
        routeMethod route = method /\
        Router.matchRoute (routePath route) pathname = Some params
  | None =>
      Forall (fun r => routeMethod r <> method \/
                       Router.matchRoute (routePath r) pathname = None)
        routes
  end.
Proof.
  induction routes as [|r routes IH]; [constructor|].
  cbn [findMatchingRoute].
  destruct (String.eqb (routeMethod r) method) eqn:Em; cbn [negb].
  - apply String.eqb_eq in Em.
    destruct (Router.matchRoute (routePath r) pathname) as [params|] eqn:Er.
    + exists [], routes. repeat split; [constructor|exact Em|exact Er].
    + destruct (findMatchingRoute routes pathname method) as [[route params]|].
      * destruct IH as (before & after & -> & Hb & Hm & Hp).
        exists (r :: before), after. repeat split; try assumption.
        constructor; [now right|exact Hb].
      * constructor; [now right|exact IH].
  - apply String.eqb_neq in Em.
    destruct (findMatchingRoute routes pathname method) as [[route params]|].
    + destruct IH as (before & after & -> & Hb & Hm & Hp).
      exists (r :: before), after. repeat split; try assumption.
      constructor; [now left|exact Hb].
    + constructor; [now left|exact IH].
Qed.




(** X13.  When no guard fails with an exception that has a [status], a
    rejection by the guards is answered with status 403 and a JSON body
    whose [error] is the fixed text and whose [message] is not empty
    (the guard's own message, or a default). *)
Theorem guard_rejection_without_status_is_403 guards context w response w' :
  Forall (failsWithoutStatus context) guards ->
  guardStage guards context w = (Returned (Some response), w') ->
  Js.status response = 403%Z /\
  headers response = [("Content-Type", "application/json")] /\
  exists message,
    body response = BodyJson (JObject [("error", JString "守卫验证失败");
                                        ("message", JString message)]) /\
    message <> "".
Proof.
  intros Hall Hr. rewrite guardStage_loop in Hr.
  destruct (GuardExecutor_canActivate_returns guards context w)
    as (result & w1 & Hg).
  erewrite bind_returned in Hr by exact Hg.
  destruct (allowed result) eqn:Hallowed; cbn [negb] in Hr;
    [discriminate|].
  destruct (GuardExecutor_canActivate_error _ _ _ _ _ Hall Hg Hallowed)
    as (e & He & Hstatus & Hmsg).
  rewrite He in Hr.
  destruct e as [m s|m s|m|shown]; try discriminate;
    [|now destruct Hmsg].
  unfold bind in Hr. rewrite guardRejection_cases in Hr. cbn in Hr.
  injection Hr as <- <-.
  cbn. repeat split.
  destruct m as [|c m]; cbn; eexists; (split; [reflexivity|discriminate]).
Qed.

Lemma guard_rejection_without_status_is_403_witness :
  Js.status (rejectionResponse (Some (Error "守卫验证失败"))) = 403%Z /\
  headers (rejectionResponse (Some (Error "守卫验证失败")))
  = [("Content-Type", "application/json")] /\
  exists message,
    body (rejectionResponse (Some (Error "守卫验证失败")))
    = BodyJson (JObject [("error", JString "守卫验证失败");
                         ("message", JString message)]) /\
    message <> "".
Proof.
  apply (guard_rejection_without_status_is_403
           [recordingGuard "roles" false] someContext world0 _
           (journaled world0 ["roles"])).
  - repeat constructor.
  - reflexivity.
Defined.



(** X15.  The handler closure is not exception-safe: when the [try]
    block has thrown and a global filter class cannot be instantiated,
    the closure itself throws that failure; no filter is given the
    exception and no response is produced. *)
Theorem failing_global_filter_class_escapes globals route req w e w1
    before create rest failure :
  tryBlock globals route req w = (Threw e, w1) ->
  globalFilters globals
  = map FilterInstance before ++ FilterClass create :: rest ->
  (forall w0, exists w0', create w0 = (Threw failure, w0')) ->
  exists w2, handleRequest globals route req w = (Threw failure, w2).
Proof.
  intros Htry Hglobal Hcreate.
  rewrite (handleRequest_threw _ _ _ _ _ _ Htry). unfold catchBlock.
  erewrite bind_returned by apply consoleLog_withLog.
  destruct (instantiateFilters_returns
              (controllerFilters route ++ methodFilters route) []
              (withLog w1 "路由处理错误:" e)) as (locals & w3 & Hlocals).
  unfold resolveFilters. erewrite bind_returned by exact Hlocals.
  rewrite Hglobal.
  destruct (getGlobalFilters_failing before create rest failure w3 Hcreate)
    as [w2 Hfail].
  exists w2. erewrite bind_threw by exact Hfail. reflexivity.
Qed.

Lemma failing_global_filter_class_escapes_witness :
  exists w2,
    handleRequest
      {| globalGuards := [];
         globalFilters := map FilterInstance [silentFilter "audit"] ++
                          FilterClass (throw (Error "no provider")) :: [] |}
      (plainRoute (failingHandler (Error "boom"))) Params.listRequest world0
    = (Threw (Error "no provider"), w2).
Proof.
  apply (failing_global_filter_class_escapes _ _ _ world0 (Error "boom")
           (journaled world0 ["handler"]) [silentFilter "audit"]
           (throw (Error "no provider")) []).
  - reflexivity.
  - reflexivity.
  - intros w0. exists w0. reflexivity.
Defined.

(** X19.  A handler without parameter decorators is called with the
    request in every declared position, and with the request alone when
    it declares no parameter; the body of the request has been read
    before. *)
Theorem undecorated_handler_receives_the_request route req w :
  Pipes.params (handlerMetadata route) = [] ->
  invokeStage route req w =
  (parseBody req ;;;
   result <- handler route
               (replicate
                  (Nat.max 1 (length (paramTypes (handlerMetadata route))))
                  (VRequest req)) ;;
   ret (shape result)) w.
Proof.
  intros Hparams. unfold invokeStage, resolveParams, resolveDecorated.
  rewrite Hparams. cbn [bindParams].
  rewrite !bind_assoc. apply bind_ext. intros body w'.
  rewrite !bind_ret_l. rewrite fillUndecorated_replicate.
  rewrite length_replicate.
  destruct (length (paramTypes (handlerMetadata route))) as [|n];
    reflexivity.
Qed.

Lemma undecorated_handler_receives_the_request_witness :
  invokeStage (plainRoute okHandler) Params.listRequest world0 =
  (parseBody Params.listRequest ;;;
   result <- handler (plainRoute okHandler)
               (replicate
                  (Nat.max 1 (length (paramTypes
                                        (handlerMetadata
                                           (plainRoute okHandler)))))
                  (VRequest Params.listRequest)) ;;
   ret (shape result)) world0.
Proof.
  apply (undecorated_handler_receives_the_request (plainRoute okHandler)).
  reflexivity.
Defined.

Lemma bind_inv {A B} (m : M A) (k : A -> M B) w b w' :
  bind m k w = (Returned b, w') ->
  exists a w1, m w = (Returned a, w1) /\ k a w1 = (Returned b, w').
Proof.
  unfold bind. destruct (m w) as [[a|e] w1]; [eauto|discriminate].
Qed.

(** X26.  The closure resolves to something that is not a [Response]
    only when the handler itself returned such a value (a truthy value
    that is neither an object nor a string): the guard rejection and
    every answer of the [catch] block are [Response] objects. *)
Theorem raw_reply_comes_from_the_handler globals route req w shown w' :
  handleRequest globals route req w = (Returned (ReplyRaw shown), w') ->
  exists arguments w0,
    handler route arguments w0 = (Returned (ResultOther shown), w').
Proof.
  unfold handleRequest, tryCatch. intros H.
  destruct (tryBlock globals route req w) as [[reply|e] w1] eqn:Htry.
  - injection H as -> ->. unfold tryBlock in Htry.
    apply bind_inv in Htry as (localGuards & w2 & _ & Htry).
    apply bind_inv in Htry as (globalGuards & w3 & _ & Htry).
    apply bind_inv in Htry as (rejection & w4 & _ & Htry).
    destruct rejection as [response|]; [discriminate|].
    unfold invokeStage in Htry.
    apply bind_inv in Htry as (resolvedParams & w5 & _ & Htry).
    apply bind_inv in Htry as (result & w6 & Hhandler & Hshape).
    injection Hshape as Hshape <-.
    destruct result; try discriminate. injection Hshape as ->.
    destruct (Nat.ltb 0 (length resolvedParams)); eauto.
  - exfalso. unfold catchBlock in H.
    apply bind_inv in H as (u & w2 & _ & H).
    apply bind_inv in H as (localFilters & w3 & _ & H).
    apply bind_inv in H as (globalFilters & w4 & _ & H).
    apply bind_inv in H as (response & w5 & _ & H).
    discriminate.
Qed.

Lemma raw_reply_comes_from_the_handler_witness :
  exists arguments w0,
    handler (plainRoute (fun _ => ret (ResultOther "42"))) arguments w0
    = (Returned (ResultOther "42"), world0).
Proof.
  apply (raw_reply_comes_from_the_handler noGlobals
           (plainRoute (fun _ => ret (ResultOther "42")))
           Params.listRequest world0 "42" world0).
  reflexivity.
Defined.




(** The handler of the statement above does throw: the status 600 is
    refused. *)
Example refused_status_escapes_the_closure :
  exists w',
    handleRequest noGlobals
      (plainRoute (failingHandler (HttpException "odd" 600)))
      Params.listRequest world0
    = (Threw (statusRangeError 600), w').
Proof. eexists. vm_compute. reflexivity. Qed.




End DispatchLaws.
